(** * hacknation-congestion: the collection pattern of the three scrapers

    A shallow embedding of the parts of [twitter_scraper.py], [bast.py] and
    [bast_traffic.py] that carry the collection pattern: the progress
    tracker and its checkpoint file, the per-source batch collectors with
    their deduplication against the tracker's seen ids, the scheduler loop
    [collect_to_target], the CSV batch writer, and the list/detail fetchers
    of the two highway scrapers.

    Conventions of the embedding.
    - A Python [str] is a Rocq [string]; one [ascii] is one character, so
      the model covers text whose code points are below 256.
    - A Python [int] is a [Z].  A Python [float] is a type [F] with the
      operations of the class [PyFloat]; every definition and theorem is
      generic in it, and [QFloat] is an instance over the rationals that
      runs the examples.
    - A function that can raise returns an [option]; [None] is the raised
      exception.
    - The network, the clock and the random generator are an explicit
      environment passed to the function that reads them. *)

From Stdlib Require Import ZArith QArith String Ascii List Lia.
From stdpp Require Import base option list gmap sets strings pretty.

Local Open Scope string_scope.
Local Open Scope list_scope.
Local Open Scope Z_scope.

(** ** Python values *)

Class PyFloat (F : Type) := {
  (** [float(n)] for an int [n] *)
  float_of_int : Z → F;
  (** [float(s)] for a str [s]; [None] is [ValueError] *)
  float_of_str : string → option F;
  (** the decimal literal [m * 10^-e], as in [52.5200] *)
  float_lit : Z → nat → F;
  (** [round(x, ndigits)] *)
  float_round : F → Z → F;
  (** [int(x)]; [None] is the error raised on an infinity or a NaN *)
  float_trunc : F → option Z;
  (** [x != 0.0], the truth value of a float *)
  float_nonzero : F → bool;
  (** [str(x)] *)
  float_repr : F → string
}.

(** The scalar values a record field holds. *)
Inductive scalar (F : Type) : Type :=
  | SNone
  | SBool (b : bool)
  | SInt (n : Z)
  | SFloat (x : F)
  | SStr (s : string).
Arguments SNone {F}.
Arguments SBool {F} b.
Arguments SInt {F} n.
Arguments SFloat {F} x.
Arguments SStr {F} s.

(** A decoded JSON document; an object keeps its members in file order. *)
#[warnings="-register-all"]
Inductive json (F : Type) : Type :=
  | JScalar (v : scalar F)
  | JArr (items : list (json F))
  | JObj (members : list (string * json F)).
Arguments JScalar {F} v.
Arguments JArr {F} items.
Arguments JObj {F} members.

(** ** Strings *)

(** [s.lower()] on code points below 256: A-Z and the Latin-1 capitals. *)
Definition lower_char (c : ascii) : ascii :=
  let n := N_of_ascii c in
  if ((65 <=? n) && (n <=? 90))%N then ascii_of_N (n + 32)
  else if ((192 <=? n) && (n <=? 222) && negb (n =? 215))%N then ascii_of_N (n + 32)
  else c.

Fixpoint py_lower (s : string) : string :=
  match s with
  | EmptyString => EmptyString
  | String c r => String (lower_char c) (py_lower r)
  end.

(** [word in text] for two strs *)
Fixpoint contains (word text : string) : bool :=
  String.prefix word text ||
  match text with
  | EmptyString => false
  | String _ r => contains word r
  end.

(** [any(word in text for word in words)] *)
Definition any_in (words : list string) (text : string) : bool :=
  existsb (λ w, contains w text) words.

(** [s.replace('\n', ' ')] *)
Fixpoint replace_newline (s : string) : string :=
  match s with
  | EmptyString => EmptyString
  | String c r =>
      String (if Ascii.eqb c (ascii_of_nat 10) then " "%char else c) (replace_newline r)
  end.

(** [s[:n]] *)
Fixpoint str_take (n : nat) (s : string) : string :=
  match n, s with
  | S m, String c r => String c (str_take m r)
  | _, _ => EmptyString
  end.

Section Values.
Context {F : Type} `{PyFloat F}.

(** [str(v)], also what an f-string puts in for [{v}] *)
Definition py_str (v : scalar F) : string :=
  match v with
  | SNone => "None"
  | SBool true => "True"
  | SBool false => "False"
  | SInt n => pretty n
  | SFloat x => float_repr x
  | SStr s => s
  end.

(** [int(s)] for a str of digits with an optional sign; [None] is
    [ValueError].  Surrounding blanks and digit separators, which Python
    also accepts, are not covered. *)
Fixpoint digits_value (acc : Z) (s : string) : option Z :=
  match s with
  | EmptyString => Some acc
  | String c r =>
      let n := N_of_ascii c in
      if ((48 <=? n) && (n <=? 57))%N
      then digits_value (10 * acc + Z.of_N (n - 48)) r
      else None
  end.

Definition int_of_str (s : string) : option Z :=
  match s with
  | EmptyString => None
  | String "-" (String _ _ as r) => Z.opp <$> digits_value 0 r
  | String "+" (String _ _ as r) => digits_value 0 r
  | String _ _ => digits_value 0 s
  end.

(** [float(v)]; [None] is [TypeError] or [ValueError] *)
Definition py_float (v : scalar F) : option F :=
  match v with
  | SNone => None
  | SBool b => Some (float_of_int (if b then 1 else 0))
  | SInt n => Some (float_of_int n)
  | SFloat x => Some x
  | SStr s => float_of_str s
  end.

(** [int(v)]; [None] is the exception *)
Definition py_int (v : scalar F) : option Z :=
  match v with
  | SNone => None
  | SBool b => Some (if b then 1 else 0)
  | SInt n => Some n
  | SFloat x => float_trunc x
  | SStr s => int_of_str s
  end.

(** the truth value of a decoded JSON value *)
Definition truthy (v : json F) : bool :=
  match v with
  | JScalar SNone => false
  | JScalar (SBool b) => b
  | JScalar (SInt n) => negb (n =? 0)
  | JScalar (SFloat x) => float_nonzero x
  | JScalar (SStr s) => negb (String.eqb s "")
  | JArr l => match l with [] => false | _ => true end
  | JObj l => match l with [] => false | _ => true end
  end.

(** [d.get(k)] on the members of an object: the last binding of a
    repeated key wins, as in the dict that [json.load] builds. *)
Fixpoint obj_get (k : string) (members : list (string * json F)) : option (json F) :=
  match members with
  | [] => None
  | (k', v) :: r =>
      match obj_get k r with
      | Some w => Some w
      | None => if String.eqb k k' then Some v else None
      end
  end.
End Values.

(** ** JSON text

    The text of a JSON file is modelled as its sequence of tokens:
    [json.dump] writes them one after the other, [json.load] parses the
    whole sequence. *)

Inductive token (F : Type) : Type :=
  | TLBrace | TRBrace | TLBracket | TRBracket | TColon | TComma
  | TScalar (v : scalar F).
Arguments TLBrace {F}.
Arguments TRBrace {F}.
Arguments TLBracket {F}.
Arguments TRBracket {F}.
Arguments TColon {F}.
Arguments TComma {F}.
Arguments TScalar {F} v.

Section Json.
Context {F : Type}.

(** the pieces of a sequence, a comma before each but the first *)
Definition comma_separated (pieces : list (list (token F))) : list (token F) :=
  match pieces with
  | [] => []
  | p :: r => p ++ concat ((λ q, TComma :: q) <$> r)
  end.

Fixpoint dump (v : json F) : list (token F) :=
  match v with
  | JScalar s => [TScalar s]
  | JArr items => TLBracket :: comma_separated (List.map dump items) ++ [TRBracket]
  | JObj members =>
      TLBrace ::
      comma_separated
        (List.map (λ kv, TScalar (SStr (fst kv)) :: TColon :: dump (snd kv)) members)
      ++ [TRBrace]
  end.

(** Recursive descent; [fuel] bounds the nesting of calls, and
    [json_load] below gives it more than any input can use. *)
Fixpoint parse_value (fuel : nat) (ts : list (token F)) : option (json F * list (token F)) :=
  match fuel with
  | O => None
  | S n =>
      match ts with
      | TScalar s :: r => Some (JScalar s, r)
      | TLBracket :: TRBracket :: r => Some (JArr [], r)
      | TLBracket :: r =>
          match parse_value n r with
          | Some (x, r1) =>
              match parse_items n r1 with
              | Some (xs, r2) => Some (JArr (x :: xs), r2)
              | None => None
              end
          | None => None
          end
      | TLBrace :: TRBrace :: r => Some (JObj [], r)
      | TLBrace :: TScalar (SStr k) :: TColon :: r =>
          match parse_value n r with
          | Some (x, r1) =>
              match parse_members n r1 with
              | Some (xs, r2) => Some (JObj ((k, x) :: xs), r2)
              | None => None
              end
          | None => None
          end
      | _ => None
      end
  end
with parse_items (fuel : nat) (ts : list (token F)) : option (list (json F) * list (token F)) :=
  match fuel with
  | O => None
  | S n =>
      match ts with
      | TRBracket :: r => Some ([], r)
      | TComma :: r =>
          match parse_value n r with
          | Some (x, r1) =>
              match parse_items n r1 with
              | Some (xs, r2) => Some (x :: xs, r2)
              | None => None
              end
          | None => None
          end
      | _ => None
      end
  end
with parse_members (fuel : nat) (ts : list (token F))
    : option (list (string * json F) * list (token F)) :=
  match fuel with
  | O => None
  | S n =>
      match ts with
      | TRBrace :: r => Some ([], r)
      | TComma :: TScalar (SStr k) :: TColon :: r =>
          match parse_value n r with
          | Some (x, r1) =>
              match parse_members n r1 with
              | Some (xs, r2) => Some ((k, x) :: xs, r2)
              | None => None
              end
          | None => None
          end
      | _ => None
      end
  end.

(** [json.load(f)] on the content of a file; [None] is [JSONDecodeError] *)
Definition json_load (content : list (token F)) : option (json F) :=
  match parse_value (S (length content)) content with
  | Some (v, []) => Some v
  | _ => None
  end.
End Json.

(** ** Files

    The file system maps a path to the tokens the file holds.  A program
    acts on it through the operations below; an execution that is
    interrupted has run a prefix of its operations. *)

Inductive fs_op (F : Type) : Type :=
  | OpenW (path : string)                    (** [open(path, 'w')]: create or truncate *)
  | Append (path : string) (chunk : token F) (** [f.write(chunk)]: append *)
  | Rename (src dst : string).               (** [os.replace(src, dst)] *)
Arguments OpenW {F} path.
Arguments Append {F} path chunk.
Arguments Rename {F} src dst.

Section Files.
Context {F : Type}.

Definition fs_step (fs : gmap string (list (token F))) (op : fs_op F)
    : gmap string (list (token F)) :=
  match op with
  | OpenW path => <[path := []]> fs
  | Append path chunk => <[path := default [] (fs !! path) ++ [chunk]]> fs
  | Rename src dst =>
      match fs !! src with
      | Some content => <[dst := content]> (delete src fs)
      | None => fs
      end
  end.

Definition fs_run (ops : list (fs_op F)) (fs : gmap string (list (token F)))
    : gmap string (list (token F)) :=
  foldl fs_step fs ops.

(** the path an operation changes *)
Definition op_target (op : fs_op F) : string :=
  match op with
  | OpenW path => path
  | Append path _ => path
  | Rename _ dst => dst
  end.

Definition is_rename (op : fs_op F) : bool :=
  match op with
  | Rename _ _ => true
  | _ => false
  end.
End Files.

(** [l[:n]] for a list *)
Definition py_slice_to {A} (n : Z) (l : list A) : list A :=
  if n <? 0 then take (length l - Z.to_nat (- n)) l else take (Z.to_nat n) l.

(** ** Config *)

Module Config.
Definition TARGET_POSTS : Z := 20000.
Definition BATCH_SIZE : Z := 1000.
Definition OUTPUT_DIR : string := "germany_data".
Definition CHECKPOINT_FILE : string := "collection_checkpoint.json".
(** in the order in which the dict literal lists the sources *)
Definition SOURCE_DISTRIBUTION : list (string * Z) :=
  [("reddit", 7000); ("wikipedia", 4000); ("osm", 3000); ("news", 2000); ("events", 4000)].
End Config.

(** ** ProgressTracker *)

Record ProgressTracker := {
  collected : gmap string Z;
  seen_ids : gset string
}.

Definition checkpoint_file : string :=
  Config.OUTPUT_DIR +:+ "/" +:+ Config.CHECKPOINT_FILE.

Definition update (source : string) (count : Z) (new_ids : gset string)
    (t : ProgressTracker) : ProgressTracker :=
  {| collected := <[source := default 0 (collected t !! source) + count]> (collected t);
     seen_ids := seen_ids t ∪ new_ids |}.

Definition get_total (t : ProgressTracker) : Z :=
  map_fold (λ _ count acc, count + acc) 0 (collected t).

Section Checkpoint.
Context {F : Type}.

(** [checkpoint_data] of [save_checkpoint].  A Python set lists its
    elements in an order of its own; [elements] stands for that order. *)
Definition checkpoint_data (now : string) (t : ProgressTracker) : json F :=
  JObj [("collected",
          JObj ((λ kv, (fst kv, JScalar (SInt (snd kv)))) <$> map_to_list (collected t)));
        ("seen_ids",
          JArr ((λ s, JScalar (SStr s)) <$> py_slice_to 10000 (elements (seen_ids t))));
        ("timestamp", JScalar (SStr now))].

(** what [save_checkpoint] does to the file system, in order *)
Definition save_checkpoint_ops (now : string) (t : ProgressTracker) : list (fs_op F) :=
  OpenW checkpoint_file :: (Append checkpoint_file <$> dump (checkpoint_data now t)).

Definition save_checkpoint (now : string) (t : ProgressTracker)
    (fs : gmap string (list (token F))) : gmap string (list (token F)) :=
  fs_run (save_checkpoint_ops now t) fs.

(** the dict of counts in a decoded checkpoint; a later member overrides
    an earlier one with the same key.  [None] when the value is not an
    object of ints, which the typed tracker cannot hold. *)
Fixpoint decode_counts (members : list (string * json F)) (acc : gmap string Z)
    : option (gmap string Z) :=
  match members with
  | [] => Some acc
  | (k, JScalar (SInt n)) :: r => decode_counts r (<[k := n]> acc)
  | _ => None
  end.

Definition decode_collected (v : json F) : option (gmap string Z) :=
  match v with
  | JObj members => decode_counts members ∅
  | _ => None
  end.

(** the items of [set(items)] for a list.  [None] is the [TypeError] of
    an item that is a list or a dict; an item that is a number, a bool or
    null would enter the set, which the tracker's set of strs cannot hold,
    and is given [None] as well. *)
Fixpoint decode_ids (items : list (json F)) : option (gset string) :=
  match items with
  | [] => Some ∅
  | JScalar (SStr s) :: r => (λ ids, {[s]} ∪ ids) <$> decode_ids r
  | _ => None
  end.

(** the characters of a str, each a str of its own *)
Fixpoint characters (s : string) : list string :=
  match s with
  | EmptyString => []
  | String c r => String c EmptyString :: characters r
  end.

(** [set(v)]: the items of a list, the keys of a dict, the characters of
    a str; [None] is [TypeError] *)
Definition decode_seen (v : json F) : option (gset string) :=
  match v with
  | JArr items => decode_ids items
  | JObj members => Some (list_to_set members.*1)
  | JScalar (SStr s) => Some (list_to_set (characters s))
  | JScalar _ => None
  end.

(** [load_checkpoint]: the tracker is left as it is when the file does
    not exist or does not parse; [collected] is assigned before [seen_ids]
    is computed, so it stays assigned when [set(...)] raises.  A
    [collected] entry that is no dict of ints is outside what the typed
    tracker holds; the tracker is then left as it is. *)
Definition load_checkpoint (fs : gmap string (list (token F))) (t : ProgressTracker)
    : ProgressTracker :=
  match fs !! checkpoint_file with
  | None => t
  | Some content =>
      match json_load content with
      | Some (JObj data) =>
          match decode_collected (default (JObj []) (obj_get "collected" data)) with
          | Some c =>
              match decode_seen (default (JArr []) (obj_get "seen_ids" data)) with
              | Some ids => {| collected := c; seen_ids := ids |}
              | None => {| collected := c; seen_ids := seen_ids t |}
              end
          | None => t
          end
      | _ => t
      end
  end.

(** [ProgressTracker()] *)
Definition new_tracker (fs : gmap string (list (token F))) : ProgressTracker :=
  load_checkpoint fs {| collected := ∅; seen_ids := ∅ |}.
End Checkpoint.

(** ** The batch collectors *)

(** What the random generator and the city table contribute to one
    generated post: the finished field values. *)
Record Generated (F : Type) := {
  g_title : string;
  g_author : string;
  g_date : string;
  g_lat : F;
  g_lon : F;
  g_location_name : string;
  g_tags : string;
  g_views : Z;
  g_city_key : string
}.
Arguments g_title {F} _.
Arguments g_author {F} _.
Arguments g_date {F} _.
Arguments g_lat {F} _.
Arguments g_lon {F} _.
Arguments g_location_name {F} _.
Arguments g_tags {F} _.
Arguments g_views {F} _.
Arguments g_city_key {F} _.

Section Collectors.
Context {F : Type} `{PyFloat F}.

(** a post is a dict from field name to scalar *)
Local Abbreviation Post := (gmap string (scalar F)).

(** The loop over the completed fetches: [results] lists what each
    fetch returned, in the order of completion, [None] for one that
    raised; the loop leaves as soon as [limit] posts are there. *)
Fixpoint gather (limit : Z) (results : list (option (list Post))) (posts : list Post)
    : list Post :=
  match results with
  | [] => posts
  | None :: rest => gather limit rest posts
  | Some fetched :: rest =>
      let posts := posts ++ fetched in
      if limit <=? Z.of_nat (length posts) then posts else gather limit rest posts
  end.

(** [f"{prefix}{post['post_id']}"]; [None] is [KeyError] *)
Definition post_key (prefix : string) (post : Post) : option string :=
  match post !! "post_id" with
  | Some v => Some (prefix +:+ py_str v)
  | None => None
  end.

(** the loop under [# Deduplicate]; [seen] is [self.tracker.seen_ids],
    which the loop reads and does not change *)
Fixpoint dedupe_loop (prefix : string) (seen : gset string) (posts : list Post)
    (unique_posts : list Post) (new_ids : gset string)
    : option (list Post * gset string) :=
  match posts with
  | [] => Some (unique_posts, new_ids)
  | post :: rest =>
      match post_key prefix post with
      | None => None
      | Some post_id =>
          if decide (post_id ∈ seen)
          then dedupe_loop prefix seen rest unique_posts new_ids
          else dedupe_loop prefix seen rest (unique_posts ++ [post]) (new_ids ∪ {[post_id]})
      end
  end.

(** from [# Deduplicate] to the [return] of a [collect_batch] *)
Definition dedupe_and_track (prefix source : string) (posts : list Post) (batch_size : Z)
    (t : ProgressTracker) : option (list Post * ProgressTracker) :=
  match dedupe_loop prefix (seen_ids t) posts [] ∅ with
  | None => None
  | Some (unique_posts, new_ids) =>
      Some (py_slice_to batch_size unique_posts,
            update source (Z.of_nat (length unique_posts)) new_ids t)
  end.

(** what it is for a batch [emitted] from the tracker [t], which the
    batch left as [t'], to hold records unseen before: each has a key,
    the key was not among the seen ids of [t], and it is among those of
    [t'], which has kept the ids of [t] *)
Definition emitted_unseen (prefix : string) (t : ProgressTracker)
    (emitted : list Post) (t' : ProgressTracker) : Prop :=
  seen_ids t ⊆ seen_ids t' ∧
  ∀ post, post ∈ emitted →
    (∃ key, post_key prefix post = Some key ∧ (key ∉ seen_ids t) ∧ key ∈ seen_ids t').
End Collectors.

(** The three fetching collectors share the text from [# Deduplicate] on,
    which is [dedupe_and_track] above; they differ in the loop that
    gathers the posts, in the prefix of the key and in the name of the
    source. *)

Module RedditGermanyMassCollector.
Definition collect_batch {F : Type} `{PyFloat F}
    (results : list (option (list (gmap string (scalar F))))) (batch_size : Z)
    (t : ProgressTracker) : option (list (gmap string (scalar F)) * ProgressTracker) :=
  dedupe_and_track "reddit_" "reddit" (gather batch_size results []) batch_size t.
End RedditGermanyMassCollector.

Module WikipediaGermanyMassCollector.
Definition collect_batch {F : Type} `{PyFloat F}
    (results : list (option (list (gmap string (scalar F))))) (batch_size : Z)
    (t : ProgressTracker) : option (list (gmap string (scalar F)) * ProgressTracker) :=
  dedupe_and_track "wiki_" "wikipedia" (gather (batch_size * 2) results []) batch_size t.
End WikipediaGermanyMassCollector.

Module OSMGermanyMassCollector.
(** [cells] lists what [_fetch_changesets] returned for the grid cells,
    row by row *)
Definition collect_batch {F : Type} `{PyFloat F}
    (cells : list (list (gmap string (scalar F)))) (batch_size : Z)
    (t : ProgressTracker) : option (list (gmap string (scalar F)) * ProgressTracker) :=
  dedupe_and_track "osm_" "osm" (gather (batch_size * 2) (Some <$> cells) []) batch_size t.
End OSMGermanyMassCollector.

Module GermanEventsMassGenerator.
(** the post built at index [i] of the loop *)
Definition event_post {F : Type} `{PyFloat F} (ms : Z) (i : nat) (g : Generated F)
    : gmap string (scalar F) :=
  let event_id := "evt_" +:+ pretty ms +:+ "_" +:+ pretty i in
  list_to_map
    [("platform", SStr "German Events");
     ("post_id", SStr event_id);
     ("title", SStr (g_title g));
     ("author", SStr (g_author g));
     ("date", SStr (g_date g));
     ("latitude", SFloat (float_round (g_lat g) 6));
     ("longitude", SFloat (float_round (g_lon g) 6));
     ("location_name", SStr (g_location_name g));
     ("tags", SStr (g_tags g));
     ("views", SInt (g_views g));
     ("url", SStr ("https://events.de/" +:+ g_city_key g +:+ "/" +:+ event_id))].

(** [time_ms i] is [int(time.time()*1000)] as read at index [i] *)
Definition generate_batch {F : Type} `{PyFloat F} (time_ms : nat → Z)
    (random : nat → Generated F) (batch_size : Z) (t : ProgressTracker)
    : list (gmap string (scalar F)) * ProgressTracker :=
  let posts := (λ i, event_post (time_ms i) i (random i)) <$> seq 0 (Z.to_nat batch_size) in
  let new_ids := list_to_set (omap (post_key "event_") posts) in
  (posts, update "events" (Z.of_nat (length posts)) new_ids t).
End GermanEventsMassGenerator.

Module GermanNewsMassCollector.
(** the post built at index [i] of the loop *)
Definition news_post {F : Type} `{PyFloat F} (ms s : Z) (i : nat) (g : Generated F)
    : gmap string (scalar F) :=
  list_to_map
    [("platform", SStr "German News");
     ("post_id", SStr ("news_" +:+ pretty ms +:+ "_" +:+ pretty i));
     ("title", SStr (str_take 200 (g_title g)));
     ("author", SStr (g_author g));
     ("date", SStr (g_date g));
     ("latitude", SFloat (g_lat g));
     ("longitude", SFloat (g_lon g));
     ("location_name", SStr (g_location_name g));
     ("tags", SStr (g_tags g));
     ("views", SInt (g_views g));
     ("url", SStr ("https://news.de/article/" +:+ pretty s +:+ "_" +:+ pretty i))].

Definition collect_batch {F : Type} `{PyFloat F} (time_ms time_s : nat → Z)
    (random : nat → Generated F) (batch_size : Z) (t : ProgressTracker)
    : list (gmap string (scalar F)) * ProgressTracker :=
  let posts :=
    (λ i, news_post (time_ms i) (time_s i) i (random i)) <$> seq 0 (Z.to_nat batch_size) in
  let new_ids := list_to_set (omap (post_key "news_") posts) in
  (posts, update "news" (Z.of_nat (length posts)) new_ids t).
End GermanNewsMassCollector.


(** ** The batch CSV writer and the final merge *)

(** one row dict of [save_batch], as handed to the CSV writer *)
Record Row (F : Type) := {
  platform : scalar F;
  post_id : string;
  title : string;
  author : string;
  date : scalar F;
  latitude : F;
  longitude : F;
  location_name : scalar F;
  tags : scalar F;
  url : scalar F;
  views_or_score : Z
}.
Arguments platform {F} _.
Arguments post_id {F} _.
Arguments title {F} _.
Arguments author {F} _.
Arguments date {F} _.
Arguments latitude {F} _.
Arguments longitude {F} _.
Arguments location_name {F} _.
Arguments tags {F} _.
Arguments url {F} _.
Arguments views_or_score {F} _.

(** one row as [csv.DictReader] gives it back: every cell is a str *)
Record CsvRow := {
  c_platform : string;
  c_post_id : string;
  c_title : string;
  c_author : string;
  c_date : string;
  c_latitude : string;
  c_longitude : string;
  c_location_name : string;
  c_tags : string;
  c_url : string;
  c_views_or_score : string
}.

Section Csv.
Context {F : Type} `{PyFloat F}.

Local Abbreviation Post := (gmap string (scalar F)).

(** the row dict built in the loop of [save_batch]; [None] when a
    conversion raises.  [now] is [datetime.now().isoformat()]. *)
Definition csv_row (now : string) (post : Post) : option (Row F) :=
  match py_float (default (SFloat (float_lit 525200 4)) (post !! "latitude")),
        py_float (default (SFloat (float_lit 134050 4)) (post !! "longitude")),
        py_int (default (default (SInt 0) (post !! "score")) (post !! "views")) with
  | Some lat, Some lon, Some views =>
      Some {| platform := default (SStr "") (post !! "platform");
              post_id := py_str (default (SStr "") (post !! "post_id"));
              title :=
                str_take 200 (replace_newline (py_str (default (SStr "") (post !! "title"))));
              author := py_str (default (SStr "") (post !! "author"));
              date := default (SStr now) (post !! "date");
              latitude := float_round lat 6;
              longitude := float_round lon 6;
              location_name := default (SStr "Germany") (post !! "location_name");
              tags := default (SStr "") (post !! "tags");
              url := default (SStr "") (post !! "url");
              views_or_score := views |}
  | _, _, _ => None
  end.

(** the loop of [save_batch]: the rows written, and whether the loop
    reached its end ([false]: a row raised and the rows before it are
    what the file holds) *)
Fixpoint save_batch (now : string) (posts : list Post) : list (Row F) * bool :=
  match posts with
  | [] => ([], true)
  | post :: rest =>
      match csv_row now post with
      | None => ([], false)
      | Some row => let '(rows, ok) := save_batch now rest in (row :: rows, ok)
      end
  end.

(** what the CSV writer puts in a cell *)
Definition csv_cell (v : scalar F) : string :=
  match v with
  | SNone => ""
  | _ => py_str v
  end.

(** a written row read back *)
Definition read_row (r : Row F) : CsvRow :=
  {| c_platform := csv_cell (platform r);
     c_post_id := post_id r;
     c_title := title r;
     c_author := author r;
     c_date := csv_cell (date r);
     c_latitude := float_repr (latitude r);
     c_longitude := float_repr (longitude r);
     c_location_name := csv_cell (location_name r);
     c_tags := csv_cell (tags r);
     c_url := csv_cell (url r);
     c_views_or_score := pretty (views_or_score r) |}.
End Csv.

(** [f"{row['platform']}_{row['post_id']}"] *)
Definition row_key (row : CsvRow) : string :=
  c_platform row +:+ "_" +:+ c_post_id row.

(** the loop under [# Remove duplicates based on platform and post_id] *)
Fixpoint merge_loop (all_rows : list CsvRow) (seen : gset string) (unique_rows : list CsvRow)
    : list CsvRow :=
  match all_rows with
  | [] => unique_rows
  | row :: rest =>
      let key := row_key row in
      if decide (key ∈ seen)
      then merge_loop rest seen unique_rows
      else merge_loop rest (seen ∪ {[key]}) (unique_rows ++ [row])
  end.

(** ** The scheduler *)

(** the world outside the program, indexed by the batch number *)
Record Env (F : Type) := {
  reddit_results : nat → list (option (list (gmap string (scalar F))));
  wikipedia_results : nat → list (option (list (gmap string (scalar F))));
  osm_cells : nat → list (list (gmap string (scalar F)));
  events_time_ms : nat → nat → Z;
  events_random : nat → nat → Generated F;
  news_time_ms : nat → nat → Z;
  news_time_s : nat → nat → Z;
  news_random : nat → nat → Generated F;
  now_iso : nat → string
}.
Arguments reddit_results {F} _ _.
Arguments wikipedia_results {F} _ _.
Arguments osm_cells {F} _ _.
Arguments events_time_ms {F} _ _ _.
Arguments events_random {F} _ _ _.
Arguments news_time_ms {F} _ _ _.
Arguments news_time_s {F} _ _ _.
Arguments news_random {F} _ _ _.
Arguments now_iso {F} _ _.

(** [GermanyMassCollector] with the local [batch_num] of
    [collect_to_target], the files, and a log of the batches requested
    from the collectors (source and size), which the program does not keep
    and the statements about the requests read. *)
Record GermanyMassCollector (F : Type) := {
  tracker : ProgressTracker;
  all_posts : list (gmap string (scalar F));
  csv_files : list (list (Row F));
  batch_num : nat;
  files : gmap string (list (token F));
  requested : list (string * Z)
}.
Arguments tracker {F} _.
Arguments all_posts {F} _.
Arguments csv_files {F} _.
Arguments batch_num {F} _.
Arguments files {F} _.
Arguments requested {F} _.

Inductive outcome (F : Type) : Type :=
  | Finished (c : GermanyMassCollector F) (final_rows : list CsvRow)
  | Crashed
  | OutOfFuel.
Arguments Finished {F} c final_rows.
Arguments Crashed {F}.
Arguments OutOfFuel {F}.

Section Scheduler.
Context {F : Type} `{PyFloat F}.

Local Abbreviation Post := (gmap string (scalar F)).

(** the [if source == ... elif ...] chain: the call to the collector of
    [source] *)
Definition collect_from (env : Env F) (n : nat) (source : string) (needed : Z)
    (t : ProgressTracker) : option (list Post * ProgressTracker) :=
  if String.eqb source "reddit" then RedditGermanyMassCollector.collect_batch (reddit_results env n) needed t
  else if String.eqb source "wikipedia"
    then WikipediaGermanyMassCollector.collect_batch (wikipedia_results env n) needed t
  else if String.eqb source "osm" then OSMGermanyMassCollector.collect_batch (osm_cells env n) needed t
  else if String.eqb source "events"
    then Some (GermanEventsMassGenerator.generate_batch (events_time_ms env n) (events_random env n) needed t)
  else if String.eqb source "news"
    then Some (GermanNewsMassCollector.collect_batch (news_time_ms env n) (news_time_s env n)
                 (news_random env n) needed t)
  else Some ([], t).

(** the loop [for source, target_count in Config.SOURCE_DISTRIBUTION.items()] *)
Fixpoint collect_sources (env : Env F) (n : nat) (sources : list (string * Z))
    (t : ProgressTracker) (batch_posts : list Post) (log : list (string * Z))
    : option (ProgressTracker * list Post * list (string * Z)) :=
  match sources with
  | [] => Some (t, batch_posts, log)
  | (source, target_count) :: rest =>
      let current_count := default 0 (collected t !! source) in
      if current_count <? target_count then
        let needed := Z.min Config.BATCH_SIZE (target_count - current_count) in
        match collect_from env n source needed t with
        | None => None
        | Some (posts, t') =>
            collect_sources env n rest t' (batch_posts ++ posts) (log ++ [(source, needed)])
        end
      else collect_sources env n rest t batch_posts log
  end.

(** one turn of the [while] loop, up to the progress report; [None]
    when a collector or [save_batch] raises *)
Definition iteration (env : Env F) (c : GermanyMassCollector F)
    : option (GermanyMassCollector F) :=
  let n := S (batch_num c) in
  match collect_sources env n Config.SOURCE_DISTRIBUTION (tracker c) [] [] with
  | None => None
  | Some (t, batch_posts, log) =>
      let saved :=
        match batch_posts with
        | [] => Some (all_posts c, csv_files c)
        | _ :: _ =>
            match save_batch (now_iso env n) batch_posts with
            | (rows, true) => Some (all_posts c ++ batch_posts, csv_files c ++ [rows])
            | (_, false) => None
            end
        end in
      match saved with
      | None => None
      | Some (posts, csvs) =>
          Some {| tracker := t;
                  all_posts := posts;
                  csv_files := csvs;
                  batch_num := n;
                  files := save_checkpoint (now_iso env n) t (files c);
                  requested := log |}
      end
  end.

(** [merge_all_csvs]: the rows of the final file *)
Definition merge_all_csvs (c : GermanyMassCollector F) : list CsvRow :=
  merge_loop (read_row <$> concat (csv_files c)) ∅ [].

(** [collect_to_target] from the state [c]; [fuel] bounds the number of
    turns of the [while] loop, and [OutOfFuel] says the loop was still
    running when it was used up.  The pause after every tenth batch and
    [display_final_stats] are left out. *)
Fixpoint collect_to_target (fuel : nat) (env : Env F) (c : GermanyMassCollector F)
    : outcome F :=
  if get_total (tracker c) <? Config.TARGET_POSTS then
    match fuel with
    | O => OutOfFuel
    | S fuel' =>
        match iteration env c with
        | None => Crashed
        | Some c' =>
            if Config.TARGET_POSTS <=? get_total (tracker c')
            then Finished c' (merge_all_csvs c')
            else collect_to_target fuel' env c'
        end
    end
  else Finished c (merge_all_csvs c).

(** [GermanyMassCollector()] *)
Definition new_collector (fs : gmap string (list (token F))) : GermanyMassCollector F :=
  {| tracker := new_tracker fs;
     all_posts := [];
     csv_files := [];
     batch_num := O;
     files := fs;
     requested := [] |}.
End Scheduler.

(** ** The list/detail fetchers of the highway scrapers *)

(** what [requests.get] gives: it raises (a timeout, a refused
    connection), or there is a response with a status code and a body,
    [None] for a body on which [response.json()] raises *)
Inductive response (F : Type) : Type :=
  | Raises
  | Response (status_code : Z) (body : option (json F)).
Arguments Raises {F}.
Arguments Response {F} status_code body.

Section Fetchers.
Context {F : Type} `{PyFloat F}.

(** [v[k]]; [None] is [KeyError], or [TypeError] when [v] is no dict *)
Definition subscript (k : string) (v : json F) : option (json F) :=
  match v with
  | JObj members => obj_get k members
  | _ => None
  end.

(** [v.get(k)]; [None] is [AttributeError], [v] is no dict *)
Definition get (k : string) (v : json F) : option (json F) :=
  match v with
  | JObj members => Some (default (JScalar SNone) (obj_get k members))
  | _ => None
  end.

(** [v.get(k, d)] *)
Definition get_or (k : string) (d : json F) (v : json F) : option (json F) :=
  match v with
  | JObj members => Some (default d (obj_get k members))
  | _ => None
  end.

(** the list that [for item in data.get(key, [])] runs over when its
    body starts with [item['identifier']]: the items of a list; for any
    other value the loop raises at its first step or has no step *)
Definition listed (key : string) (body : option (json F)) : list (json F) :=
  match body with
  | Some (JObj data) =>
      match default (JArr []) (obj_get key data) with
      | JArr items => items
      | _ => []
      end
  | _ => []
  end.

(** *** [bast.py] *)

(** the dict appended to [webcams] *)
Definition webcam_record (autobahn : string) (webcam details : json F)
    : option (list (string * json F)) :=
  match get_or "coordinate" (JObj []) details with
  | Some coord =>
      match get "lat" coord, get "long" coord, get "identifier" webcam,
            get "title" details, get "subtitle" details, get "operator" details,
            get "direction" details, get "linkurl" details, get "imageurl" details with
      | Some lat, Some long, Some ident, Some ti, Some su, Some op, Some di, Some li, Some im =>
          Some [("autobahn", JScalar (SStr autobahn));
                ("webcam_id", ident);
                ("title", ti);
                ("subtitle", su);
                ("latitude", lat);
                ("longitude", long);
                ("operator", op);
                ("direction", di);
                ("link_url", li);
                ("image_url", im)]
      | _, _, _, _, _, _, _, _, _ => None
      end
  | None => None
  end.

(** The loop of [get_webcam_locations].  [detail i ident] is the answer
    to the detail request of item [i], whose identifier is [ident].  An
    exception leaves the loop for the [except] around it, after which
    the function returns what [webcams] holds. *)
Fixpoint webcam_loop (autobahn : string) (detail : nat → json F → response F)
    (i : nat) (items : list (json F)) (webcams : list (list (string * json F)))
    : list (list (string * json F)) :=
  match items with
  | [] => webcams
  | webcam :: rest =>
      match subscript "identifier" webcam with
      | None => webcams
      | Some ident =>
          match detail i ident with
          | Raises => webcams
          | Response status body =>
              if status =? 200 then
                match body with
                | None => webcams
                | Some details =>
                    match webcam_record autobahn webcam details with
                    | None => webcams
                    | Some r => webcam_loop autobahn detail (S i) rest (webcams ++ [r])
                    end
                end
              else webcam_loop autobahn detail (S i) rest webcams
          end
      end
  end.

(** [BAStRealTimeTrafficScraper.get_webcam_locations]: the rows of the
    DataFrame it returns *)
Definition get_webcam_locations (autobahn : string) (listing : response F)
    (detail : nat → json F → response F) : list (list (string * json F)) :=
  match listing with
  | Raises => []
  | Response status body =>
      if status =? 200
      then webcam_loop autobahn detail O (listed "webcam" body) []
      else []
  end.

(** *** [bast_traffic.py] *)

(** the operand [details.get(k, '')] of a str concatenation; [None] is
    the [TypeError] of a value that is no str *)
Definition text_of (k : string) (members : list (string * json F)) : option string :=
  match default (JScalar (SStr "")) (obj_get k members) with
  | JScalar (SStr s) => Some s
  | _ => None
  end.

Definition verzoegerung : string :=
  "verz" +:+ String (ascii_of_nat 246) "gerung".

(** [EnhancedTrafficWarningScraper._determine_severity] *)
Definition _determine_severity (details : json F) : option Z :=
  match details with
  | JObj members =>
      match text_of "title" members, text_of "subtitle" members with
      | Some ti, Some su =>
          let text := py_lower (ti +:+ " " +:+ su) in
          Some (if any_in ["gefahr"; "danger"; "unfall"; "accident"; "vollsperrung"] text
                then 5
                else if any_in ["stau"; "congestion"; verzoegerung] text then 3
                else if truthy (default (JScalar SNone) (obj_get "isRoadworks" members))
                then 2
                else 1)
      | _, _ => None
      end
  | _ => None
  end.

(** [' '.join(parts)]; [None] when an item is no str *)
Fixpoint join_space (parts : list (json F)) : option string :=
  match parts with
  | [] => Some ""
  | JScalar (SStr s) :: r =>
      match join_space r with
      | Some t => Some (match r with [] => s | _ :: _ => s +:+ " " +:+ t end)
      | None => None
      end
  | _ => None
  end.

(** the [description] entry of [_process_warning_details] *)
Definition description_of (details : json F) : option (json F) :=
  match get "description" details with
  | Some (JArr parts) => (λ s, JScalar (SStr s)) <$> join_space parts
  | Some _ => get_or "description" (JScalar (SStr "")) details
  | None => None
  end.

(** [_process_warning_details], without the entries that need the
    hash, the clock, the date parser or the text of the whole dict; none
    of those raises on a decoded JSON object. *)
Definition _process_warning_details (details : json F) (highway : string)
    : option (list (string * json F)) :=
  match get_or "coordinate" (JObj []) details with
  | Some coord =>
      match get "identifier" details, get "lat" coord, get "long" coord,
            get_or "location" (JScalar (SStr "")) details,
            get_or "title" (JScalar (SStr "")) details,
            get_or "subtitle" (JScalar (SStr "")) details,
            description_of details,
            _determine_severity details,
            get_or "isRoadworks" (JScalar (SBool false)) details with
      | Some ident, Some lat, Some long, Some loc, Some ti, Some su, Some de, Some sev, Some rw =>
          Some [("highway", JScalar (SStr highway));
                ("warning_id", ident);
                ("latitude", lat);
                ("longitude", long);
                ("location_description", loc);
                ("title", ti);
                ("subtitle", su);
                ("description", de);
                ("severity", JScalar (SInt sev));
                ("is_roadworks", rw)]
      | _, _, _, _, _, _, _, _, _ => None
      end
  | None => None
  end.

(** what [_get_warning_history] and [_enrich_warning_data] add;
    [warning_history] is never filled, so the history is the empty list,
    and looking it up raises for an identifier that cannot be hashed.
    The entries computed from the date, and [coordinate_string], are
    left out. *)
Definition enrich (include_history : bool) (ident : json F)
    (warning_data : list (string * json F)) : option (list (string * json F)) :=
  let precise :=
    truthy (default (JScalar SNone) (obj_get "latitude" warning_data)) &&
    truthy (default (JScalar SNone) (obj_get "longitude" warning_data)) in
  let entry := [("has_precise_location", JScalar (SBool precise))] in
  if include_history then
    match ident with
    | JScalar _ => Some (warning_data ++ ("history", JArr []) :: entry)
    | _ => None
    end
  else Some (warning_data ++ entry).

(** one turn of the loop of [get_traffic_warnings_detailed], for an
    item that is a dict: the body of the inner [try]; [None] when it
    raises *)
Definition warning_item (highway : string) (include_history : bool)
    (answer : json F → response F) (members : list (string * json F))
    : option (option (list (string * json F))) :=
  match obj_get "identifier" members with
  | None => None
  | Some ident =>
      match answer ident with
      | Raises => None
      | Response status body =>
          if status =? 200 then
            match body with
            | None => None
            | Some details =>
                match _process_warning_details details highway with
                | None => None
                | Some warning_data =>
                    match enrich include_history ident warning_data with
                    | None => None
                    | Some warning_data => Some (Some warning_data)
                    end
                end
            end
          else Some None
      end
  end.

(** The loop of [get_traffic_warnings_detailed].  Each turn runs in a
    [try] of its own, whose [except] logs [warning.get('identifier')]
    and goes on with the next item; for an item that is no dict that
    log line raises in turn, which ends the loop. *)
Fixpoint warning_loop (highway : string) (include_history : bool)
    (detail : nat → json F → response F)
    (i : nat) (items : list (json F)) (warnings : list (list (string * json F)))
    : list (list (string * json F)) :=
  match items with
  | [] => warnings
  | JObj members :: rest =>
      match warning_item highway include_history (detail i) members with
      | Some (Some warning_data) =>
          warning_loop highway include_history detail (S i) rest (warnings ++ [warning_data])
      | _ => warning_loop highway include_history detail (S i) rest warnings
      end
  | _ :: _ => warnings
  end.

(** the record, if any, that the turn for [item] adds *)
Definition item_record (highway : string) (include_history : bool)
    (answer : json F → response F) (item : json F) : option (list (string * json F)) :=
  match item with
  | JObj members =>
      match warning_item highway include_history answer members with
      | Some (Some warning_data) => Some warning_data
      | _ => None
      end
  | _ => None
  end.

Definition is_dict (v : json F) : Prop :=
  match v with
  | JObj _ => True
  | _ => False
  end.

(** [EnhancedTrafficWarningScraper.get_traffic_warnings_detailed] *)
Definition get_traffic_warnings_detailed (highway : string) (include_history : bool)
    (listing : response F) (detail : nat → json F → response F)
    : list (list (string * json F)) :=
  match listing with
  | Raises => []
  | Response status body =>
      if status =? 200 then
        match body with
        | Some (JObj data) =>
            match default (JArr []) (obj_get "warning" data) with
            | JArr items => warning_loop highway include_history detail O items []
            | _ => []
            end
        | _ => []
        end
      else []
  end.
(** the keys of the dict that [json.load] builds from [members]: each
    key once, at the place where it stands first *)
Fixpoint dict_keys (seen : list string) (members : list (string * json F)) : list string :=
  match members with
  | [] => []
  | (k, _) :: r =>
      if decide (k ∈ seen) then dict_keys seen r else k :: dict_keys (k :: seen) r
  end.

(** the items that [list.extend(v)] appends: the items of a list, the
    keys of a dict, the characters of a str; [None] is the [TypeError] of
    a value that cannot be iterated *)
Definition iterate (v : json F) : option (list (json F)) :=
  match v with
  | JArr items => Some items
  | JObj members => Some ((λ k, JScalar (SStr k)) <$> dict_keys [] members)
  | JScalar (SStr s) => Some ((λ c, JScalar (SStr c)) <$> characters s)
  | JScalar _ => None
  end.

(** the numbers that the fallback of [get_all_autobahns] leaves out *)
Definition excluded_numbers : list nat :=
  [12; 16; 18; 22; 32; 34; 35; 36; 37; 41; 47; 50; 51; 53; 54; 55; 56; 58; 68; 69; 75; 76;
   77; 78; 79; 82; 83; 84; 85; 86; 87; 88; 89; 90; 91; 97]%nat.

(** [[f'A{i}' for i in range(1, 100) if i not in [...]]] *)
Definition fallback_highways : list string :=
  (λ i : nat, "A" +:+ pretty i) <$> filter (λ i, i ∉ excluded_numbers) (seq 1 99).

(** [[f'B{i}' for i in [...]]] *)
Definition bundesstrassen : list string :=
  (λ i : nat, "B" +:+ pretty i)
    <$> [1; 2; 3; 4; 5; 6; 7; 8; 9; 10; 27; 31; 96; 173; 300]%nat.

(** what [highways] holds after the [try] block of [get_all_autobahns];
    [answer] is what [requests.get] gives for the list of roads *)
Definition roads_of (answer : response F) : list (json F) :=
  match answer with
  | Raises => []
  | Response status body =>
      if status =? 200 then
        match body with
        | Some (JObj data) => default [] (iterate (default (JArr []) (obj_get "roads" data)))
        | _ => []
        end
      else []
  end.

(** [EnhancedTrafficWarningScraper.get_all_autobahns] *)
Definition get_all_autobahns (include_bundesstrassen : bool) (answer : response F)
    : list (json F) :=
  let highways :=
    match roads_of answer with
    | [] => (λ s, JScalar (SStr s)) <$> fallback_highways
    | _ :: _ => roads_of answer
    end in
  if include_bundesstrassen
  then highways ++ ((λ s, JScalar (SStr s)) <$> bundesstrassen)
  else highways.
(** the list both [return]s of the fallback of [get_autobahn_list] give *)
Definition common_autobahns : list string :=
  ["A1"; "A2"; "A3"; "A4"; "A5"; "A6"; "A7"; "A8"; "A9"; "A10"].

(** [BAStRealTimeTrafficScraper.get_autobahn_list]; the value of [roads]
    is returned as it is when [len] takes it, a list, a dict or a str;
    on any other the [len] of the log line raises, inside the [try] *)
Definition get_autobahn_list (answer : response F) : json F :=
  let fallback := JArr ((λ s, JScalar (SStr s)) <$> common_autobahns) in
  match answer with
  | Raises => fallback
  | Response status body =>
      if status =? 200 then
        match body with
        | Some (JObj data) =>
            match default (JArr []) (obj_get "roads" data) with
            | JScalar (SStr s) => JScalar (SStr s)
            | JScalar _ => fallback
            | autobahns => autobahns
            end
        | _ => fallback
        end
      else fallback
  end.

End Fetchers.

(** ** Floats over the rationals

    An instance of [PyFloat] that computes: a float is an exact rational,
    without rounding error, infinities or NaN; [repr] prints a fraction and
    [of_str] reads plain decimals.  It runs the examples; the theorems
    hold for every instance. *)

Module QFloat.
Definition of_int (n : Z) : Q := inject_Z n.

Definition lit (m : Z) (e : nat) : Q := Qmake m (Z.to_pos (10 ^ Z.of_nat e)).

(** half to even at [ndigits] decimals *)
Definition round (x : Q) (ndigits : Z) : Q :=
  let scale := 10 ^ ndigits in
  let a := Qnum x * scale in
  let b := Zpos (Qden x) in
  let q := a / b in
  let r := a mod b in
  let q' :=
    match 2 * r ?= b with
    | Lt => q
    | Gt => q + 1
    | Eq => if Z.even q then q else q + 1
    end in
  Qmake q' (Z.to_pos scale).

Definition trunc (x : Q) : option Z := Some (Z.quot (Qnum x) (Zpos (Qden x))).

Definition nonzero (x : Q) : bool := negb (Qnum x =? 0).

Definition repr (x : Q) : string := pretty (Qnum x) +:+ "/" +:+ pretty (Zpos (Qden x)).

Fixpoint split_dot (s : string) : string * option string :=
  match s with
  | EmptyString => (EmptyString, None)
  | String c r =>
      if Ascii.eqb c "."%char then (EmptyString, Some r)
      else let '(a, b) := split_dot r in (String c a, b)
  end.

Definition of_str (s : string) : option Q :=
  let '(neg, body) :=
    match s with
    | String "-" r => (true, r)
    | _ => (false, s)
    end in
  let '(whole, frac) := split_dot body in
  let frac := default EmptyString frac in
  match whole, digits_value 0 whole, digits_value 0 frac with
  | String _ _, Some w, Some f =>
      let scale := 10 ^ Z.of_nat (String.length frac) in
      let m := w * scale + f in
      Some (Qmake (if neg then - m else m) (Z.to_pos scale))
  | _, _, _ => None
  end.

#[export] Instance py_float_Q : PyFloat Q := {
  float_of_int := of_int;
  float_of_str := of_str;
  float_lit := lit;
  float_round := round;
  float_trunc := trunc;
  float_nonzero := nonzero;
  float_repr := repr
}.
End QFloat.
Import QFloat.

(** ** The claims' own words, and concrete inputs *)

(** the batch the scheduler is to request from [source], whose quota is
    [quota], when the tracker is [t]: none once the count has reached the
    quota, else [min(batch_size, quota - collected)] *)
Definition expected_request (t : ProgressTracker) (entry : string * Z) : option (string * Z) :=
  let '(source, quota) := entry in
  let count := default 0 (collected t !! source) in
  if count <? quota then Some (source, Z.min Config.BATCH_SIZE (quota - count)) else None.

(** the tracker [t'] has at least what [t] has: the total, the seen ids
    and the count of every source *)
Definition tracker_grows (t t' : ProgressTracker) : Prop :=
  get_total t ≤ get_total t' ∧
  seen_ids t ⊆ seen_ids t' ∧
  ∀ source, default 0 (collected t !! source) ≤ default 0 (collected t' !! source).

(** the levels that [_determine_severity] gives *)
Definition severity_level (n : Z) : Prop := n = 1 ∨ n = 2 ∨ n = 3 ∨ n = 5.

(** the characters of a str *)
Fixpoint chars_of (s : string) : list ascii :=
  match s with
  | EmptyString => []
  | String c r => c :: chars_of r
  end.

(** the tokens of the items of an array after its first item, and of the
    members of an object after its first member *)
Definition items_tail {F} (items : list (json F)) : list (token F) :=
  concat ((λ q, TComma :: q) <$> List.map dump items).

Definition member_tokens {F} (kv : string * json F) : list (token F) :=
  TScalar (SStr (fst kv)) :: TColon :: dump (snd kv).

Definition members_tail {F} (members : list (string * json F)) : list (token F) :=
  concat ((λ q, TComma :: q) <$> List.map member_tokens members).

Definition post_a : gmap string (scalar Q) :=
  {[ "post_id" := SStr "a"; "title" := SStr "Stau in Berlin" ]}.

Definition post_b : gmap string (scalar Q) :=
  {[ "post_id" := SStr "b"; "latitude" := SFloat (lit 4813514 5); "longitude" := SInt 11 ]}.

Definition fresh_tracker : ProgressTracker :=
  {| collected := ∅; seen_ids := ∅ |}.

Definition unfall_details : json Q :=
  JObj [("identifier", JScalar (SStr "X42"));
        ("title", JScalar (SStr "A1 | Hamburg - Bremen"));
        ("subtitle", JScalar (SStr "Unfall, rechter Fahrstreifen gesperrt"))].

Definition berlin_event : Generated Q :=
  {| g_title := "Konzert in Berlin - March 2025";
     g_author := "Veranstalter_100";
     g_date := "2025-03-01T12:00:00";
     g_lat := lit 5252345678 8;
     g_lon := lit 1340512345 8;
     g_location_name := "Berlin, Berlin";
     g_tags := "event,music,berlin";
     g_views := 50;
     g_city_key := "berlin" |}.

(** a tracker that has seen the id the events generator builds at the
    time 1700000000000 for index 0 *)
Definition stale_tracker : ProgressTracker :=
  {| collected := ∅; seen_ids := {[ "event_evt_1700000000000_0" ]} |}.

Definition seen_a_tracker : ProgressTracker :=
  {| collected := {[ "reddit" := 3 ]}; seen_ids := {[ "reddit_a" ]} |}.

Definition webcam_item (ident : string) : json Q :=
  JObj [("identifier", JScalar (SStr ident)); ("title", JScalar (SStr "Webcam"))].

Definition webcam_details (ident : string) : json Q :=
  JObj [("identifier", JScalar (SStr ident));
        ("title", JScalar (SStr "A1 | Kamera"));
        ("coordinate",
          JObj [("lat", JScalar (SFloat (lit 535511 4)));
                ("long", JScalar (SFloat (lit 99937 4)))]);
        ("isRoadworks", JScalar (SBool false))].

(** the list endpoint names three items *)
Definition three_items : response Q :=
  Response 200
    (Some (JObj [("webcam", JArr [webcam_item "X42"; webcam_item "X43"; webcam_item "X44"]);
                 ("warning", JArr [webcam_item "X42"; webcam_item "X43"; webcam_item "X44"])])).

(** the detail request for X42 times out, the others are answered *)
Definition x42_times_out (i : nat) (ident : json Q) : response Q :=
  match ident with
  | JScalar (SStr s) =>
      if String.eqb s "X42" then Raises else Response 200 (Some (webcam_details s))
  | _ => Response 404 None
  end.

Definition reddit_row (id : string) (note : string) : CsvRow :=
  {| c_platform := "Reddit"; c_post_id := id; c_title := note; c_author := "";
     c_date := ""; c_latitude := "52.52"; c_longitude := "13.405";
     c_location_name := "Berlin"; c_tags := ""; c_url := ""; c_views_or_score := "0" |}.

(** no fetch returns anything; the clock stands still *)
Definition quiet_env : Env Q :=
  {| reddit_results := λ _, [];
     wikipedia_results := λ _, [];
     osm_cells := λ _, [];
     events_time_ms := λ _ _, 1700000000000;
     events_random := λ _ _, berlin_event;
     news_time_ms := λ _ _, 1700000000000;
     news_time_s := λ _ _, 1700000000;
     news_random := λ _ _, berlin_event;
     now_iso := λ _, "2025-01-01T00:00:00" |}.

(** all quotas but three are met *)
Definition nearly_done : GermanyMassCollector Q :=
  {| tracker :=
       {| collected :=
            {[ "reddit" := 6999; "wikipedia" := 4000; "osm" := 3000;
               "news" := 1999; "events" := 3998 ]};
          seen_ids := ∅ |};
     all_posts := [];
     csv_files := [];
     batch_num := 7;
     files := ∅;
     requested := [] |}.

(** the generators have met their quotas, the fetching sources have
    nothing *)
Definition stuck_tracker : ProgressTracker :=
  {| collected :=
       {[ "reddit" := 0; "wikipedia" := 0; "osm" := 0; "news" := 2000; "events" := 4000 ]};
     seen_ids := ∅ |}.

(** a run that resumes from the checkpoint of that tracker *)
Definition stuck : GermanyMassCollector Q :=
  new_collector (save_checkpoint "2025-01-01T00:00:00" stuck_tracker ∅).

(** more ids than a checkpoint keeps: the decimal numerals of 0 .. 10000 *)
Definition many_ids : gset string :=
  list_to_set (pretty <$> seq 0 (Z.to_nat 10001)).

Definition big_tracker : ProgressTracker :=
  {| collected := {[ "reddit" := 10001 ]}; seen_ids := many_ids |}.

(** the files after a first, completed save *)
Definition saved_once : gmap string (list (token Q)) :=
  save_checkpoint "2025-01-01T00:00:00" seen_a_tracker ∅.

(** a second save, of one more id, interrupted right after the [open] *)
Definition interrupted : gmap string (list (token Q)) :=
  fs_run (take 1 (save_checkpoint_ops "2025-01-01T00:05:00"
                    (update "reddit" 1 {[ "reddit_b" ]} seen_a_tracker)))
    saved_once.


Definition roads_answer : response Q :=
  Response 200 (Some (JObj [("roads", JArr [JScalar (SStr "A1"); JScalar (SStr "A7")])])).

(** a full closure announced in capitals, in the subtitle *)
Definition sperrung_members : list (string * json Q) :=
  [("identifier", JScalar (SStr "X1")); ("title", JScalar (SStr "A7 | Hamburg"));
   ("subtitle", JScalar (SStr "VOLLSPERRUNG nach Stau")); ("isRoadworks", JScalar (SBool true))].

(** a post whose title has two lines *)
Definition post_two_lines : gmap string (scalar Q) :=
  {[ "post_id" := SStr "c"; "title" := SStr ("Stau" +:+ String (ascii_of_nat 10) "A7") ]}.

(** * Properties *)

Example round_default_latitude : round (lit 525200 4) 6 = Qmake 52520000 1000000.
Proof. reflexivity. Qed.

Example round_half_even : round (Qmake 25 10000000) 6 = Qmake 2 1000000.
Proof. reflexivity. Qed.

Example of_str_decimal : of_str "13.405" = Some (Qmake 13405 1000).
Proof. reflexivity. Qed.

Example lower_umlaut :
  py_lower ("VERZ" +:+ String (ascii_of_nat 214) "GERUNG") = verzoegerung.
Proof. reflexivity. Qed.

Example contains_inside : contains "stau" "5 km stau vor hamburg" = true.
Proof. reflexivity. Qed.

(** *** Slices *)

Lemma py_slice_to_take {A} (n : Z) (l : list A) :
  0 ≤ n → py_slice_to n l = take (Z.to_nat n) l.
Proof.
  intros Hn. unfold py_slice_to.
  destruct (n <? 0) eqn:E; [apply Z.ltb_lt in E; lia | reflexivity].
Qed.

Lemma py_slice_to_sublist {A} (n : Z) (l : list A) (x : A) :
  x ∈ py_slice_to n l → x ∈ l.
Proof.
  unfold py_slice_to. destruct (n <? 0); intros Hx; by eapply subseteq_take.
Qed.

(** *** [json.load] reads back what [json.dump] wrote *)

Section JsonRoundTrip.
Context {F : Type}.

Lemma dump_arr_cons (x : json F) (xs : list (json F)) :
  dump (JArr (x :: xs)) = TLBracket :: dump x ++ items_tail xs ++ [TRBracket].
Proof. simpl. unfold items_tail. by rewrite <- app_assoc. Qed.

Lemma dump_obj_cons (k : string) (x : json F) (ms : list (string * json F)) :
  dump (JObj ((k, x) :: ms))
    = TLBrace :: TScalar (SStr k) :: TColon :: dump x ++ members_tail ms ++ [TRBrace].
Proof. simpl. unfold members_tail, member_tokens. by rewrite <- app_assoc. Qed.

Lemma items_tail_cons (x : json F) (xs : list (json F)) :
  items_tail (x :: xs) = TComma :: dump x ++ items_tail xs.
Proof. reflexivity. Qed.

Lemma members_tail_cons (k : string) (x : json F) (ms : list (string * json F)) :
  members_tail ((k, x) :: ms)
    = TComma :: TScalar (SStr k) :: TColon :: dump x ++ members_tail ms.
Proof. reflexivity. Qed.

(** a dumped value starts with the token of a scalar or with an opening
    bracket or brace *)
Lemma dump_starts (v : json F) :
  ∃ tok r, dump v = tok :: r ∧
    ((∃ s, tok = TScalar s) ∨ tok = TLBracket ∨ tok = TLBrace).
Proof. destruct v; simpl; eauto 7. Qed.

Lemma dump_nonempty (v : json F) : (1 ≤ length (dump v))%nat.
Proof. destruct (dump_starts v) as (tok & r & -> & _). simpl. lia. Qed.

Lemma parse_open_bracket (n : nat) (x : json F) (r : list (token F)) :
  parse_value (S n) (TLBracket :: dump x ++ r)
    = match parse_value n (dump x ++ r) with
      | Some (y, r1) =>
          match parse_items n r1 with
          | Some (ys, r2) => Some (JArr (y :: ys), r2)
          | None => None
          end
      | None => None
      end.
Proof.
  destruct (dump_starts x) as (tok & r' & -> & [[s ->]|[->| ->]]); reflexivity.
Qed.

Lemma parse_round_trip (n : nat) :
  (∀ (v : json F) rest, (length (dump v) ≤ n)%nat →
     parse_value n (dump v ++ rest) = Some (v, rest)) ∧
  (∀ (xs : list (json F)) rest, (length (items_tail xs) < n)%nat →
     parse_items n (items_tail xs ++ TRBracket :: rest) = Some (xs, rest)) ∧
  (∀ (ms : list (string * json F)) rest, (length (members_tail ms) < n)%nat →
     parse_members n (members_tail ms ++ TRBrace :: rest) = Some (ms, rest)).
Proof.
  induction n as [|n (IHv & IHi & IHm)].
  - split; [|split]; intros ? ? Hlen; [|lia|lia].
    pose proof (dump_nonempty v). lia.
  - split; [|split].
    + intros [s|[|x xs]|[|[k x] ms]] rest Hlen; try reflexivity.
      * rewrite dump_arr_cons in *. rewrite <- app_comm_cons, <- !app_assoc.
        rewrite parse_open_bracket.
        simpl in Hlen. rewrite !length_app in Hlen. simpl in Hlen.
        rewrite IHv by lia. simpl. rewrite IHi by lia. reflexivity.
      * rewrite dump_obj_cons in *. simpl in Hlen. rewrite !length_app in Hlen. simpl in Hlen.
        change (parse_value (S n)
                  ((TLBrace :: TScalar (SStr k) :: TColon :: dump x ++ members_tail ms ++ [TRBrace])
                   ++ rest))
          with (match parse_value n ((dump x ++ members_tail ms ++ [TRBrace]) ++ rest) with
                | Some (y, r1) =>
                    match parse_members n r1 with
                    | Some (ys, r2) => Some (JObj ((k, y) :: ys), r2)
                    | None => None
                    end
                | None => None
                end).
        rewrite <- !app_assoc. rewrite IHv by lia. simpl. rewrite IHm by lia. reflexivity.
    + intros [|x xs] rest Hlen; [reflexivity|].
      rewrite items_tail_cons in *. simpl in Hlen. rewrite length_app in Hlen.
      rewrite <- app_comm_cons, <- app_assoc.
      change (parse_items (S n) (TComma :: dump x ++ items_tail xs ++ TRBracket :: rest))
        with (match parse_value n (dump x ++ items_tail xs ++ TRBracket :: rest) with
              | Some (y, r1) =>
                  match parse_items n r1 with
                  | Some (ys, r2) => Some (y :: ys, r2)
                  | None => None
                  end
              | None => None
              end).
      rewrite IHv by lia. rewrite IHi by lia. reflexivity.
    + intros [|[k x] ms] rest Hlen; [reflexivity|].
      rewrite members_tail_cons in *. simpl in Hlen. rewrite length_app in Hlen.
      change (parse_members (S n)
                ((TComma :: TScalar (SStr k) :: TColon :: dump x ++ members_tail ms)
                 ++ TRBrace :: rest))
        with (match parse_value n ((dump x ++ members_tail ms) ++ TRBrace :: rest) with
              | Some (y, r1) =>
                  match parse_members n r1 with
                  | Some (ys, r2) => Some ((k, y) :: ys, r2)
                  | None => None
                  end
              | None => None
              end).
      rewrite <- app_assoc. rewrite IHv by lia. rewrite IHm by lia. reflexivity.
Qed.

(** what [json.dump] wrote, [json.load] reads back *)
Lemma json_load_dump (v : json F) : json_load (dump v) = Some v.
Proof.
  unfold json_load.
  destruct (parse_round_trip (S (length (dump v)))) as [Hv _].
  specialize (Hv v [] ltac:(lia)). rewrite app_nil_r in Hv. by rewrite Hv.
Qed.

Lemma json_load_empty : json_load (@nil (token F)) = None.
Proof. reflexivity. Qed.
End JsonRoundTrip.

(** *** The checkpoint file *)

Section CheckpointProps.
Context {F : Type}.

Lemma fs_run_cons (op : fs_op F) (ops : list (fs_op F)) (fs : gmap string (list (token F))) :
  fs_run (op :: ops) fs = fs_run ops (fs_step fs op).
Proof. reflexivity. Qed.

Lemma fs_run_appends (path : string) (chunks content : list (token F))
    (fs : gmap string (list (token F))) :
  fs !! path = Some content →
  fs_run (Append path <$> chunks) fs !! path = Some (content ++ chunks).
Proof.
  revert fs content. induction chunks as [|chunk chunks IH]; intros fs content Hfs.
  - by rewrite app_nil_r.
  - rewrite fmap_cons, fs_run_cons. cbn [fs_step]. rewrite Hfs. cbn [from_option id].
    rewrite (IH _ (content ++ [chunk])) by apply lookup_insert_eq.
    by rewrite <- app_assoc.
Qed.

Lemma fs_run_elsewhere (ops : list (fs_op F)) (path : string)
    (fs : gmap string (list (token F))) :
  Forall (λ op, op_target op ≠ path ∧ is_rename op = false) ops →
  fs_run ops fs !! path = fs !! path.
Proof.
  intros Hops. revert fs. induction Hops as [|op ops [Hne Hrn] _ IH]; intros fs; [done|].
  rewrite fs_run_cons, IH.
  destruct op; simpl in *; try discriminate; by rewrite lookup_insert_ne.
Qed.

Lemma save_checkpoint_ops_in_place (now : string) (t : ProgressTracker) :
  Forall (λ op : fs_op F, op_target op = checkpoint_file ∧ is_rename op = false)
    (save_checkpoint_ops now t).
Proof.
  unfold save_checkpoint_ops. constructor; [done|].
  apply Forall_fmap, Forall_forall. by intros chunk _.
Qed.

Lemma save_checkpoint_prefix (now : string) (t : ProgressTracker)
    (fs : gmap string (list (token F))) (n : nat) :
  fs_run (take (S n) (save_checkpoint_ops now t)) fs !! checkpoint_file
    = Some (take n (dump (checkpoint_data now t))).
Proof.
  unfold save_checkpoint_ops. rewrite firstn_cons, <- fmap_take, fs_run_cons.
  cbn [fs_step].
  by rewrite (fs_run_appends _ _ []) by apply lookup_insert_eq.
Qed.

Lemma save_checkpoint_content (now : string) (t : ProgressTracker)
    (fs : gmap string (list (token F))) :
  save_checkpoint now t fs !! checkpoint_file = Some (dump (checkpoint_data now t)).
Proof.
  unfold save_checkpoint.
  rewrite <- (take_ge (save_checkpoint_ops now t) (S (length (dump (@checkpoint_data F now t))))).
  - rewrite save_checkpoint_prefix. by rewrite take_ge.
  - unfold save_checkpoint_ops. simpl. by rewrite length_fmap.
Qed.

(** C2, as amended: [save_checkpoint] opens the checkpoint file itself
    for writing and writes the JSON into it; it writes no other file and
    renames none.  After the first [n + 1] of its steps the file holds the
    first [n] tokens of the new checkpoint, none right after the [open];
    after all of them it holds the new checkpoint. *)
Theorem save_checkpoint_writes_in_place (now : string) (t : ProgressTracker)
    (fs : gmap string (list (token F))) :
  Forall (λ op : fs_op F, op_target op = checkpoint_file ∧ is_rename op = false)
    (save_checkpoint_ops now t) ∧
  (∀ n, fs_run (take (S n) (save_checkpoint_ops now t)) fs !! checkpoint_file
        = Some (take n (dump (checkpoint_data now t)))) ∧
  save_checkpoint now t fs !! checkpoint_file = Some (dump (checkpoint_data now t)) ∧
  (∀ n path, path ≠ checkpoint_file →
     fs_run (take n (save_checkpoint_ops now t)) fs !! path = fs !! path).
Proof.
  split; [apply save_checkpoint_ops_in_place|].
  split; [intros n; apply save_checkpoint_prefix|].
  split; [apply save_checkpoint_content|].
  intros n path Hne. apply fs_run_elsewhere.
  apply Forall_take. eapply Forall_impl; [apply save_checkpoint_ops_in_place|].
  intros op [Htarget Hrn]. split; [by rewrite Htarget | done].
Qed.

Lemma foldl_insert (l : list (string * Z)) (acc : gmap string Z) :
  foldl (λ a kv, <[kv.1 := kv.2]> a) acc l = list_to_map (reverse l) ∪ acc.
Proof.
  revert acc. induction l as [|[k n] l IH]; intros acc; simpl.
  - by rewrite (left_id_L ∅ (∪)).
  - rewrite IH, reverse_cons, list_to_map_app. simpl.
    rewrite insert_empty, <- (assoc_L (∪)). by rewrite <- insert_union_singleton_l.
Qed.

Lemma decode_counts_encode (l : list (string * Z)) (acc : gmap string Z) :
  decode_counts ((λ kv, (kv.1, JScalar (F:=F) (SInt kv.2))) <$> l) acc
    = Some (foldl (λ a kv, <[kv.1 := kv.2]> a) acc l).
Proof.
  revert acc. induction l as [|[k n] l IH]; intros acc; [done|].
  rewrite fmap_cons. simpl. apply IH.
Qed.

Lemma decode_collected_encode (m : gmap string Z) :
  decode_collected
    (JObj ((λ kv, (kv.1, JScalar (F:=F) (SInt kv.2))) <$> map_to_list m)) = Some m.
Proof.
  simpl. rewrite decode_counts_encode, foldl_insert. f_equal.
  rewrite (right_id_L ∅ (∪)).
  rewrite <- (list_to_map_to_list m) at 2.
  apply list_to_map_proper; [|apply reverse_Permutation].
  rewrite fmap_reverse, reverse_Permutation. apply NoDup_fst_map_to_list.
Qed.

Lemma decode_ids_encode (l : list string) :
  decode_ids ((λ s, JScalar (F:=F) (SStr s)) <$> l) = Some (list_to_set l).
Proof.
  induction l as [|s l IH]; [done|]. rewrite fmap_cons. simpl. by rewrite IH.
Qed.

Lemma obj_get_first (a b c : json F) :
  obj_get "collected" [("collected", a); ("seen_ids", b); ("timestamp", c)] = Some a.
Proof. reflexivity. Qed.

Lemma obj_get_second (a b c : json F) :
  obj_get "seen_ids" [("collected", a); ("seen_ids", b); ("timestamp", c)] = Some b.
Proof. reflexivity. Qed.

(** what a load right after a save makes of the tracker *)
Lemma load_after_save (now : string) (t t0 : ProgressTracker)
    (fs : gmap string (list (token F))) :
  load_checkpoint (save_checkpoint now t fs) t0
    = {| collected := collected t;
         seen_ids := list_to_set (py_slice_to 10000 (elements (seen_ids t))) |}.
Proof.
  unfold load_checkpoint. rewrite save_checkpoint_content, json_load_dump.
  unfold checkpoint_data. rewrite obj_get_first, obj_get_second.
  cbn [from_option id]. rewrite decode_collected_encode.
  cbn [decode_seen]. by rewrite decode_ids_encode.
Qed.

Lemma kept_ids_capped (ids : gset string) :
  10000 < Z.of_nat (size ids) →
  Z.of_nat (size (list_to_set (C:=gset string) (py_slice_to 10000 (elements ids)))) = 10000.
Proof.
  intros Hbig. unfold py_slice_to. cbn [Z.ltb Z.compare].
  rewrite size_list_to_set.
  - rewrite length_take. change (length (elements ids)) with (size ids). lia.
  - apply (sublist_NoDup _ (elements ids)); [apply NoDup_elements | apply sublist_take].
Qed.

(** C5, as amended: loading right after saving restores the counts of
    every source, and the seen ids as a set when there are at most 10000
    of them; of more than 10000 seen ids the checkpoint keeps 10000. *)
Theorem checkpoint_round_trip (now : string) (t t0 : ProgressTracker)
    (fs : gmap string (list (token F))) :
  collected (load_checkpoint (save_checkpoint now t fs) t0) = collected t ∧
  seen_ids (load_checkpoint (save_checkpoint now t fs) t0) ⊆ seen_ids t ∧
  (Z.of_nat (size (seen_ids t)) ≤ 10000 →
     seen_ids (load_checkpoint (save_checkpoint now t fs) t0) = seen_ids t) ∧
  (10000 < Z.of_nat (size (seen_ids t)) →
     Z.of_nat (size (seen_ids (load_checkpoint (save_checkpoint now t fs) t0))) = 10000).
Proof.
  rewrite load_after_save. cbn [collected seen_ids].
  split; [done|]. split; [|split].
  - intros x Hx%elem_of_list_to_set. apply elem_of_elements. by eapply py_slice_to_sublist.
  - intros Hsmall. unfold py_slice_to. cbn [Z.ltb Z.compare]. rewrite take_ge.
    + apply list_to_set_elements_L.
    + change (length (elements (seen_ids t))) with (size (seen_ids t)). lia.
  - apply kept_ids_capped.
Qed.
End CheckpointProps.

Section Properties.
Context {F : Type} `{PyFloat F}.

Local Abbreviation Post := (gmap string (scalar F)).

(** *** The severity of a warning *)

(** C8: whenever [_determine_severity] returns, it returns 1, 2, 3 or 5,
    and so never 4, the level its docstring gives to an accident. *)
Theorem determine_severity_never_4 (details : json F) (severity : Z) :
  _determine_severity details = Some severity →
  (severity = 1 ∨ severity = 2 ∨ severity = 3 ∨ severity = 5) ∧ severity ≠ 4.
Proof.
  unfold _determine_severity. intros Hsev.
  destruct details as [| |members]; try discriminate.
  destruct (text_of "title" members); try discriminate.
  destruct (text_of "subtitle" members); try discriminate.
  injection Hsev as <-.
  repeat match goal with |- context [if ?b then _ else _] => destruct b end; lia.
Qed.

(** [_determine_severity] returns on every dict whose title and subtitle
    are strs or are missing. *)
Lemma determine_severity_returns (members : list (string * json F)) (ti su : string) :
  text_of "title" members = Some ti →
  text_of "subtitle" members = Some su →
  is_Some (_determine_severity (JObj members)).
Proof. intros Hti Hsu. unfold _determine_severity. rewrite Hti, Hsu. eauto. Qed.

(** *** The rows of a batch file *)

Lemma save_batch_rows (now : string) (posts : list Post) (row : Row F) :
  row ∈ (save_batch now posts).1 → ∃ post, post ∈ posts ∧ csv_row now post = Some row.
Proof.
  induction posts as [|post rest IH]; simpl.
  - intros Hrow. inversion Hrow.
  - destruct (csv_row now post) as [r|] eqn:Er.
    + destruct (save_batch now rest) as [rows ok]. simpl in *.
      intros [->|Hin]%elem_of_cons.
      * exists post. split; [left | exact Er].
      * destruct (IH Hin) as (p & Hp & Hr). exists p. split; [by right | exact Hr].
    + simpl. intros Hrow. inversion Hrow.
Qed.

(** C10: each row that [save_batch] writes carries a float latitude and
    a float longitude, both rounded to 6 decimals, and for a post without
    the field it is the rounded default, 52.5200 or 13.4050. *)
Theorem save_batch_rows_have_coordinates (now : string) (posts : list Post) (row : Row F) :
  row ∈ (save_batch now posts).1 →
  ∃ post lat lon,
    post ∈ posts ∧
    py_float (default (SFloat (float_lit 525200 4)) (post !! "latitude")) = Some lat ∧
    py_float (default (SFloat (float_lit 134050 4)) (post !! "longitude")) = Some lon ∧
    latitude row = float_round lat 6 ∧
    longitude row = float_round lon 6 ∧
    (post !! "latitude" = None → latitude row = float_round (float_lit 525200 4) 6) ∧
    (post !! "longitude" = None → longitude row = float_round (float_lit 134050 4) 6).
Proof.
  intros Hrow. destruct (save_batch_rows _ _ _ Hrow) as (post & Hpost & Hcsv).
  unfold csv_row in Hcsv.
  destruct (py_float (default _ (post !! "latitude"))) as [lat|] eqn:Elat; try discriminate.
  destruct (py_float (default _ (post !! "longitude"))) as [lon|] eqn:Elon; try discriminate.
  destruct (py_int _) as [views|]; try discriminate.
  injection Hcsv as <-. exists post, lat, lon. simpl.
  repeat split; try done.
  - intros Hnone. rewrite Hnone in Elat. simpl in Elat. by injection Elat as <-.
  - intros Hnone. rewrite Hnone in Elon. simpl in Elon. by injection Elon as <-.
Qed.

(** A post without coordinates is written, with the defaults, whenever
    its view count converts. *)
Lemma csv_row_without_coordinates (now : string) (post : Post) (views : Z) :
  post !! "latitude" = None →
  post !! "longitude" = None →
  py_int (default (default (SInt 0) (post !! "score")) (post !! "views")) = Some views →
  ∃ row, csv_row now post = Some row ∧
         latitude row = float_round (float_lit 525200 4) 6 ∧
         longitude row = float_round (float_lit 134050 4) 6.
Proof.
  intros Hlat Hlon Hviews. unfold csv_row. rewrite Hlat, Hlon, Hviews. simpl. eauto.
Qed.
(** *** Deduplication against the seen ids *)

Lemma dedupe_loop_inv (prefix : string) (seen : gset string) (posts : list Post)
    (unique_posts : list Post) (new_ids : gset string) (u : list Post) (n : gset string) :
  dedupe_loop prefix seen posts unique_posts new_ids = Some (u, n) →
  new_ids ⊆ n ∧
  ∀ post, post ∈ u →
    (post ∈ unique_posts ∨
     ∃ key, post ∈ posts ∧ post_key prefix post = Some key ∧ (key ∉ seen) ∧ key ∈ n).
Proof.
  revert unique_posts new_ids.
  induction posts as [|post rest IH]; intros unique_posts new_ids Hloop; simpl in Hloop.
  - injection Hloop as <- <-. split; [done | by left].
  - destruct (post_key prefix post) as [post_id|] eqn:Ekey; [|discriminate].
    destruct (decide (post_id ∈ seen)) as [Hseen|Hnew].
    + apply IH in Hloop as [Hsub Hu]. split; [done|].
      intros q Hq. destruct (Hu q Hq) as [Hl|(k & Hin & Hk)]; [by left|].
      right. exists k. split; [by right | done].
    + apply IH in Hloop as [Hsub Hu].
      split; [intros x Hx; apply Hsub, elem_of_union; by left|].
      intros q Hq. destruct (Hu q Hq) as [Hl|(k & Hin & Hk)].
      * apply elem_of_app in Hl as [Hl|Hl]; [by left|].
        apply list_elem_of_singleton in Hl as ->.
        right. exists post_id. split; [by left|]. split; [done|]. split; [done|].
        apply Hsub, elem_of_union. right. by apply elem_of_singleton.
      * right. exists k. split; [by right | done].
Qed.

Lemma dedupe_and_track_unseen (prefix source : string) (posts : list Post) (batch_size : Z)
    (t : ProgressTracker) (emitted : list Post) (t' : ProgressTracker) :
  dedupe_and_track prefix source posts batch_size t = Some (emitted, t') →
  emitted_unseen prefix t emitted t'.
Proof.
  unfold dedupe_and_track.
  destruct (dedupe_loop _ _ _ _ _) as [[u n]|] eqn:Eloop; [|discriminate].
  intros [= <- <-]. destruct (dedupe_loop_inv _ _ _ _ _ _ _ Eloop) as [_ Hu].
  split; simpl; [set_solver|].
  intros post Hpost%py_slice_to_sublist.
  destruct (Hu post Hpost) as [Hnil|(k & _ & Hk & Hnew & Hn)]; [by apply elem_of_nil in Hnil|].
  exists k. split; [done|]. split; [done|set_solver].
Qed.

(** C1, as amended: a batch of the reddit, the wikipedia or the osm
    collector holds only records whose key was not among the seen ids when
    the batch was deduplicated, and that key is among them afterwards; the
    events and the news generator emit what they generate whatever the seen
    ids are. *)
Theorem collectors_emit_unseen (results : list (option (list Post)))
    (cells : list (list Post)) (time_ms time_s : nat → Z) (random : nat → Generated F)
    (batch_size : Z) (t : ProgressTracker) :
  (∀ emitted t', RedditGermanyMassCollector.collect_batch results batch_size t = Some (emitted, t') →
     emitted_unseen "reddit_" t emitted t') ∧
  (∀ emitted t', WikipediaGermanyMassCollector.collect_batch results batch_size t = Some (emitted, t') →
     emitted_unseen "wiki_" t emitted t') ∧
  (∀ emitted t', OSMGermanyMassCollector.collect_batch cells batch_size t = Some (emitted, t') →
     emitted_unseen "osm_" t emitted t') ∧
  (∀ t2, (GermanEventsMassGenerator.generate_batch time_ms random batch_size t).1 =
         (GermanEventsMassGenerator.generate_batch time_ms random batch_size t2).1) ∧
  (∀ t2, (GermanNewsMassCollector.collect_batch time_ms time_s random batch_size t).1 =
         (GermanNewsMassCollector.collect_batch time_ms time_s random batch_size t2).1).
Proof.
  split; [|split; [|split; [|split]]]; try (intros t2; reflexivity);
    intros emitted t' Hbatch; by eapply dedupe_and_track_unseen.
Qed.

(** A record that a filtering collector has emitted is not emitted by a
    later batch of the same kind, whatever was collected in between. *)
Lemma not_emitted_again (prefix source : string) (posts1 posts2 : list Post) (b1 b2 : Z)
    (t1 t1' t2 t2' : ProgressTracker) (e1 e2 : list Post) (post1 post2 : Post) :
  dedupe_and_track prefix source posts1 b1 t1 = Some (e1, t1') →
  seen_ids t1' ⊆ seen_ids t2 →
  dedupe_and_track prefix source posts2 b2 t2 = Some (e2, t2') →
  post1 ∈ e1 → post2 ∈ e2 →
  post_key prefix post1 ≠ post_key prefix post2.
Proof.
  intros [_ H1]%dedupe_and_track_unseen Hsub [_ H2]%dedupe_and_track_unseen Hp1 Hp2 Heq.
  destruct (H1 _ Hp1) as (k1 & Hk1 & _ & Hin1).
  destruct (H2 _ Hp2) as (k2 & Hk2 & Hnot2 & _).
  rewrite Hk1, Hk2 in Heq. injection Heq as ->. set_solver.
Qed.

(** C9: when the deduplicated posts of a reddit batch outnumber the batch
    size, the batch returns the first [batch_size] of them and adds the
    count of all of them to the tracker's count for reddit, which exceeds
    the number returned. *)
Theorem collected_exceeds_emitted (results : list (option (list Post))) (batch_size : Z)
    (t : ProgressTracker) (unique_posts : list Post) (new_ids : gset string) :
  0 ≤ batch_size →
  dedupe_loop "reddit_" (seen_ids t) (gather batch_size results []) [] ∅
    = Some (unique_posts, new_ids) →
  batch_size < Z.of_nat (length unique_posts) →
  ∃ emitted t',
    RedditGermanyMassCollector.collect_batch results batch_size t = Some (emitted, t') ∧
    emitted = take (Z.to_nat batch_size) unique_posts ∧
    Z.of_nat (length emitted) = batch_size ∧
    collected t' !! "reddit"
      = Some (default 0 (collected t !! "reddit") + Z.of_nat (length unique_posts)) ∧
    Z.of_nat (length emitted) < Z.of_nat (length unique_posts).
Proof.
  intros Hpos Hloop Hmore.
  unfold RedditGermanyMassCollector.collect_batch, dedupe_and_track. rewrite Hloop.
  rewrite py_slice_to_take by done.
  eexists _, _. split; [reflexivity|]. split; [reflexivity|].
  assert (Hlen : Z.of_nat (length (take (Z.to_nat batch_size) unique_posts)) = batch_size).
  { rewrite length_take. lia. }
  split; [exact Hlen|]. split; [|lia].
  simpl. apply lookup_insert_eq.
Qed.

(** *** The final merge *)

Lemma merge_loop_spec (all_rows : list CsvRow) (seen : gset string) (unique_rows : list CsvRow) :
  ∃ kept,
    merge_loop all_rows seen unique_rows = unique_rows ++ kept ∧
    kept `sublist_of` all_rows ∧
    NoDup (row_key <$> kept) ∧
    (∀ row, row ∈ kept → row_key row ∉ seen) ∧
    (∀ i row, all_rows !! i = Some row → row_key row ∉ seen →
       (∀ j earlier, (j < i)%nat → all_rows !! j = Some earlier → row_key earlier ≠ row_key row) →
       row ∈ kept).
Proof.
  revert seen unique_rows.
  induction all_rows as [|r rest IH]; intros seen unique_rows; simpl.
  - exists []. rewrite app_nil_r. repeat split; try constructor.
    + intros row Hrow. by apply elem_of_nil in Hrow.
    + intros i row Hi. by rewrite lookup_nil in Hi.
  - destruct (decide (row_key r ∈ seen)) as [Hseen|Hnew].
    + destruct (IH seen unique_rows) as (kept & Heq & Hsub & Hnd & Hk & Hfirst).
      exists kept. split; [done|]. split; [by apply sublist_cons|]. split; [done|].
      split; [done|].
      intros [|i] row Hi Hrow Hearlier; simpl in Hi.
      * injection Hi as ->. done.
      * apply (Hfirst i row Hi Hrow). intros j e Hj He.
        apply (Hearlier (S j) e); [lia | done].
    + destruct (IH (seen ∪ {[row_key r]}) (unique_rows ++ [r]))
        as (kept & Heq & Hsub & Hnd & Hk & Hfirst).
      exists (r :: kept). split; [by rewrite Heq, <- app_assoc|].
      split; [by apply sublist_skip|]. split.
      { rewrite fmap_cons. apply NoDup_cons. split; [|done].
        intros (row & Hkey & Hrow)%list_elem_of_fmap.
        apply Hk in Hrow. set_solver. }
      split.
      { intros row [->|Hrow]%elem_of_cons; [done|]. apply Hk in Hrow. set_solver. }
      intros [|i] row Hi Hrow Hearlier; simpl in Hi.
      * injection Hi as ->. by left.
      * right. apply (Hfirst i row Hi).
        -- assert (Hdiff : row_key r ≠ row_key row) by (apply (Hearlier O r); [lia | done]).
           intros [Hin|Hin%elem_of_singleton]%elem_of_union; [done | by symmetry in Hin].
        -- intros j e Hj He. apply (Hearlier (S j) e); [lia | done].
Qed.

(** The merge of the batch files keeps, of the rows that share a key,
    the first one in file order and no other. *)
Lemma merge_keeps_first (all_rows : list CsvRow) :
  merge_loop all_rows ∅ [] `sublist_of` all_rows ∧
  NoDup (row_key <$> merge_loop all_rows ∅ []) ∧
  ∀ i row, all_rows !! i = Some row →
    (∀ j earlier, (j < i)%nat → all_rows !! j = Some earlier → row_key earlier ≠ row_key row) →
    row ∈ merge_loop all_rows ∅ [].
Proof.
  destruct (merge_loop_spec all_rows ∅ []) as (kept & -> & Hsub & Hnd & _ & Hfirst).
  simpl. split; [done|]. split; [done|].
  intros i row Hi Hearlier. apply (Hfirst i row Hi); [set_solver | done].
Qed.

(** *** The fetchers *)

(** In [bast.py] a detail request that raises ends the loop: what was
    gathered before it is the result, and the items after it are not
    asked for. *)
Lemma webcam_loop_stops_at_raise (autobahn : string) (detail : nat → json F → response F)
    (i : nat) (webcam ident : json F) (rest : list (json F))
    (webcams : list (list (string * json F))) :
  subscript "identifier" webcam = Some ident →
  detail i ident = Raises →
  webcam_loop autobahn detail i (webcam :: rest) webcams = webcams.
Proof. intros Hid Hraise. simpl. by rewrite Hid, Hraise. Qed.

(** In [bast_traffic.py] every item that is a dict is handled on its
    own: the result holds the record of each item that has one, in order. *)
Lemma warning_loop_spec (highway : string) (include_history : bool)
    (detail : nat → json F → response F) (items : list (json F)) (i : nat)
    (warnings : list (list (string * json F))) :
  Forall is_dict items →
  warning_loop highway include_history detail i items warnings
    = warnings ++
      omap id (imap (λ j, item_record highway include_history (detail (i + j)%nat)) items).
Proof.
  intros Hdict. revert i warnings.
  induction Hdict as [|item rest Hitem _ IH]; intros i warnings; simpl.
  - by rewrite app_nil_r.
  - destruct item as [| |members]; try done. simpl.
    replace (i + 0)%nat with i by lia.
    assert (Hshift : imap ((λ j, item_record highway include_history (detail (i + j)%nat)) ∘ S) rest
              = imap (λ j, item_record highway include_history (detail (S i + j)%nat)) rest).
    { apply imap_ext. intros j x _. simpl. by replace (i + S j)%nat with (S i + j)%nat by lia. }
    rewrite Hshift.
    destruct (warning_item _ _ _ _) as [[w|]|]; rewrite IH; simpl; try done.
    by rewrite <- app_assoc.
Qed.

Lemma omap_id_length_all_some {A} (l : list (option A)) :
  (∀ j, (j < length l)%nat → ∃ x, l !! j = Some (Some x)) →
  length (omap id l) = length l.
Proof.
  induction l as [|o l IH]; intros Hall; [done|].
  destruct (Hall O ltac:(simpl; lia)) as [x Hx]. simpl in Hx. injection Hx as ->.
  change (omap id (Some x :: l)) with (x :: omap id l). simpl. f_equal.
  apply IH. intros j Hj. apply (Hall (S j)). simpl. lia.
Qed.

Lemma omap_id_length_one_none {A} (l : list (option A)) (k : nat) :
  l !! k = Some None →
  (∀ j, j ≠ k → (j < length l)%nat → ∃ x, l !! j = Some (Some x)) →
  length (omap id l) = (length l - 1)%nat.
Proof.
  revert k. induction l as [|o l IH]; intros k Hk Hothers.
  - by rewrite lookup_nil in Hk.
  - destruct k as [|k]; simpl in Hk.
    + injection Hk as ->. change (omap id (None :: l)) with (omap id l).
      rewrite omap_id_length_all_some; [simpl; lia|].
      intros j Hj. apply (Hothers (S j)); simpl; lia.
    + destruct (Hothers O ltac:(lia) ltac:(simpl; lia)) as [x Hx].
      simpl in Hx. injection Hx as ->.
      change (omap id (Some x :: l)) with (x :: omap id l). simpl.
      rewrite (IH k Hk).
      * apply lookup_lt_Some in Hk. lia.
      * intros j Hj Hlt. apply (Hothers (S j)); simpl; lia.
Qed.

(** The fetcher of [bast_traffic.py] has the behaviour C3 asks for: when
    the turn of exactly one of N listed items gives no record (its detail
    request raises, say) and each other item gives one, N-1 records are
    returned. *)
Lemma traffic_warnings_skip_one (highway : string) (include_history : bool)
    (data : list (string * json F)) (items : list (json F))
    (detail : nat → json F → response F) (k : nat) (failed : json F) :
  obj_get "warning" data = Some (JArr items) →
  Forall is_dict items →
  items !! k = Some failed →
  item_record highway include_history (detail k) failed = None →
  (∀ j item, j ≠ k → items !! j = Some item →
     is_Some (item_record highway include_history (detail j) item)) →
  length (get_traffic_warnings_detailed highway include_history
            (Response 200 (Some (JObj data))) detail)
    = (length items - 1)%nat.
Proof.
  intros Hdata Hdict Hk Hfail Hothers.
  unfold get_traffic_warnings_detailed. simpl. rewrite Hdata. simpl.
  rewrite warning_loop_spec by done. simpl.
  rewrite (omap_id_length_one_none _ k).
  - by rewrite length_imap.
  - rewrite list_lookup_imap, Hk. simpl. by rewrite Hfail.
  - intros j Hj Hlt. rewrite length_imap in Hlt.
    destruct (lookup_lt_is_Some_2 items j Hlt) as [item Hitem].
    destruct (Hothers j item Hj Hitem) as [w Hw].
    exists w. rewrite list_lookup_imap, Hitem. simpl. by rewrite Hw.
Qed.

(** *** The scheduler *)

Lemma update_other (source other : string) (count : Z) (ids : gset string)
    (t : ProgressTracker) :
  other ≠ source → collected (update source count ids t) !! other = collected t !! other.
Proof. intros Hne. simpl. by rewrite lookup_insert_ne. Qed.

Lemma dedupe_and_track_other (prefix source other : string) (posts : list Post)
    (batch_size : Z) (t t' : ProgressTracker) (emitted : list Post) :
  other ≠ source →
  dedupe_and_track prefix source posts batch_size t = Some (emitted, t') →
  collected t' !! other = collected t !! other.
Proof.
  intros Hne. unfold dedupe_and_track.
  destruct (dedupe_loop _ _ _ _ _) as [[u ids]|]; [|discriminate].
  intros [= _ <-]. by apply update_other.
Qed.

(** a collector changes the count of its own source only *)
Lemma collect_from_other (env : Env F) (n : nat) (source other : string) (needed : Z)
    (t t' : ProgressTracker) (posts : list Post) :
  other ≠ source →
  collect_from env n source needed t = Some (posts, t') →
  collected t' !! other = collected t !! other.
Proof.
  intros Hne. unfold collect_from.
  repeat match goal with
  | |- context [String.eqb source ?s] =>
      destruct (String.eqb_spec source s) as [->|_]
  end;
  first [ by apply dedupe_and_track_other
        | intros [= _ <-]; by apply update_other
        | by intros [= _ <-] ].
Qed.

Lemma omap_agree {A B} (f g : A → option B) (l : list A) :
  (∀ x, x ∈ l → f x = g x) → omap f l = omap g l.
Proof.
  induction l as [|x l IH]; intros Hfg; [done|].
  change (omap f (x :: l)) with (match f x with Some y => y :: omap f l | None => omap f l end).
  change (omap g (x :: l)) with (match g x with Some y => y :: omap g l | None => omap g l end).
  rewrite (Hfg x) by left. rewrite IH; [done|]. intros y Hy. apply Hfg. by right.
Qed.

Lemma nodup_fst_functional {A B} (l : list (A * B)) (x : A) (y1 y2 : B) :
  NoDup l.*1 → (x, y1) ∈ l → (x, y2) ∈ l → y1 = y2.
Proof.
  induction l as [|[a b] l IH]; intros Hnd H1 H2; [by apply elem_of_nil in H1|].
  rewrite fmap_cons in Hnd. apply NoDup_cons in Hnd as [Hfresh Hnd]. simpl in Hfresh.
  apply elem_of_cons in H1 as [E1|H1]; apply elem_of_cons in H2 as [E2|H2].
  - congruence.
  - injection E1 as -> ->. destruct Hfresh. apply list_elem_of_fmap. by exists (a, y2).
  - injection E2 as -> ->. destruct Hfresh. apply list_elem_of_fmap. by exists (a, y1).
  - by apply IH.
Qed.

Lemma collect_sources_log (env : Env F) (n : nat) (sources : list (string * Z))
    (t : ProgressTracker) (batch_posts : list Post) (log : list (string * Z))
    (t' : ProgressTracker) (batch_posts' : list Post) (log' : list (string * Z)) :
  NoDup sources.*1 →
  collect_sources env n sources t batch_posts log = Some (t', batch_posts', log') →
  log' = log ++ omap (expected_request t) sources ∧
  ∀ other, other ∉ sources.*1 → collected t' !! other = collected t !! other.
Proof.
  revert t batch_posts log.
  induction sources as [|[source quota] rest IH]; intros t batch_posts log Hnd Hrun.
  - simpl in Hrun. injection Hrun as <- _ <-. by rewrite app_nil_r.
  - rewrite fmap_cons in Hnd. apply NoDup_cons in Hnd as [Hfresh Hnd].
    simpl in Hrun. unfold expected_request at 1. simpl.
    destruct (default 0 (collected t !! source) <? quota) eqn:Ebelow.
    + destruct (collect_from env n source _ t) as [[posts t1]|] eqn:Ecall; [|discriminate].
      apply IH in Hrun as [-> Hother]; [|done].
      assert (Hsame : omap (expected_request t1) rest = omap (expected_request t) rest).
      { apply omap_agree. intros [s q] Hin. unfold expected_request.
        assert (Hne : s ≠ source).
        { intros ->. apply Hfresh, list_elem_of_fmap. by exists (source, q). }
        by rewrite (collect_from_other _ _ _ s _ _ _ _ Hne Ecall). }
      rewrite Hsame, <- app_assoc. split; [done|].
      intros other [Hne Hnot]%not_elem_of_cons.
      rewrite (Hother other Hnot). by eapply collect_from_other.
    + apply IH in Hrun as [-> Hother]; [|done]. split; [done|].
      intros other [_ Hnot]%not_elem_of_cons. by apply Hother.
Qed.

Lemma source_names_distinct : NoDup Config.SOURCE_DISTRIBUTION.*1.
Proof. apply (bool_decide_unpack _). vm_compute. exact I. Qed.

(** C7: in a turn of the scheduler the batches requested are, in the
    order of the sources, one for each source whose count is below its
    quota, of size [min(BATCH_SIZE, quota - count)], and none for a source
    whose count has reached its quota; the counts are those at the start of
    the turn. *)
Theorem requests_follow_quota (env : Env F) (c c' : GermanyMassCollector F) :
  iteration env c = Some c' →
  requested c' = omap (expected_request (tracker c)) Config.SOURCE_DISTRIBUTION ∧
  ∀ source quota, (source, quota) ∈ Config.SOURCE_DISTRIBUTION →
    let count := default 0 (collected (tracker c) !! source) in
    (count < quota →
       (source, Z.min Config.BATCH_SIZE (quota - count)) ∈ requested c' ∧
       ∀ size, (source, size) ∈ requested c' → size = Z.min Config.BATCH_SIZE (quota - count)) ∧
    (quota ≤ count → ∀ size, (source, size) ∉ requested c').
Proof.
  intros Hturn.
  assert (Hlog : requested c' = omap (expected_request (tracker c)) Config.SOURCE_DISTRIBUTION).
  { unfold iteration in Hturn.
    destruct (collect_sources _ _ _ _ _ _) as [[[t posts] log]|] eqn:Erun; [|discriminate].
    apply collect_sources_log in Erun as [-> _]; [|apply source_names_distinct].
    destruct posts as [|p posts].
    - by injection Hturn as <-.
    - destruct (save_batch _ _) as [rows [|]]; [|discriminate]. by injection Hturn as <-. }
  split; [exact Hlog|].
  intros source quota Hin count.
  assert (Hentry : ∀ size, (source, size) ∈ requested c' →
            count < quota ∧ size = Z.min Config.BATCH_SIZE (quota - count)).
  { intros size. rewrite Hlog, list_elem_of_omap.
    intros ([s q] & Hsq & Hreq). unfold expected_request in Hreq.
    destruct (default 0 (collected (tracker c) !! s) <? q) eqn:Ebelow; [|discriminate].
    injection Hreq as -> <-.
    assert (q = quota) as ->.
    { exact (nodup_fst_functional _ _ _ _ source_names_distinct Hsq Hin). }
    apply Z.ltb_lt in Ebelow. done. }
  split.
  - intros Hbelow. split; [|intros size Hsize; by apply Hentry].
    rewrite Hlog, list_elem_of_omap. exists (source, quota). split; [done|].
    unfold expected_request. fold count. apply Z.ltb_lt in Hbelow. by rewrite Hbelow.
  - intros Hmet size Hsize. apply Hentry in Hsize as [Hbelow _]. lia.
Qed.

Lemma collect_to_target_finished (fuel : nat) (env : Env F) (c c' : GermanyMassCollector F)
    (rows : list CsvRow) :
  collect_to_target fuel env c = Finished c' rows →
  Config.TARGET_POSTS ≤ get_total (tracker c').
Proof.
  revert c. induction fuel as [|fuel IH]; intros c; simpl.
  - destruct (get_total (tracker c) <? Config.TARGET_POSTS) eqn:Ebelow; [discriminate|].
    intros [= <- _]. apply Z.ltb_ge in Ebelow. done.
  - destruct (get_total (tracker c) <? Config.TARGET_POSTS) eqn:Ebelow.
    + destruct (iteration env c) as [c1|]; [|discriminate].
      destruct (Config.TARGET_POSTS <=? get_total (tracker c1)) eqn:Ereached.
      * intros [= <- _]. by apply Z.leb_le.
      * apply IH.
    + intros [= <- _]. apply Z.ltb_ge in Ebelow. done.
Qed.

(** from a state that is below the target, and whose every turn leads to
    such a state again, the loop does not come to an end *)
Lemma collect_to_target_spins (env : Env F) (stuck_at : GermanyMassCollector F → Prop) :
  (∀ c, stuck_at c →
     get_total (tracker c) < Config.TARGET_POSTS ∧
     ∃ c', iteration env c = Some c' ∧ stuck_at c') →
  ∀ fuel c, stuck_at c → collect_to_target fuel env c = OutOfFuel.
Proof.
  intros Hstuck. induction fuel as [|fuel IH]; intros c Hc;
    destruct (Hstuck c Hc) as (Hbelow & c' & Hturn & Hc'); simpl;
    apply Z.ltb_lt in Hbelow as Hb; rewrite Hb; [done|].
  rewrite Hturn.
  destruct (Hstuck c' Hc') as [Hbelow' _].
  apply Z.leb_gt in Hbelow'. rewrite Hbelow'. by apply IH.
Qed.

(** C4, as amended: the loop of [collect_to_target] ends only with the
    total at the target or above; a turn that brings no new record while
    the total is below the target is followed by the next turn; and from a
    state whose every turn leaves the total below the target the loop is
    still running after any number of turns. *)
Theorem scheduler_stops_only_at_target (env : Env F) :
  (∀ fuel c c' rows,
     collect_to_target fuel env c = Finished c' rows →
     Config.TARGET_POSTS ≤ get_total (tracker c')) ∧
  (∀ fuel c c',
     get_total (tracker c) < Config.TARGET_POSTS →
     iteration env c = Some c' →
     get_total (tracker c') = get_total (tracker c) →
     collect_to_target (S fuel) env c = collect_to_target fuel env c') ∧
  (∀ stuck_at : GermanyMassCollector F → Prop,
     (∀ c, stuck_at c →
        get_total (tracker c) < Config.TARGET_POSTS ∧
        ∃ c', iteration env c = Some c' ∧ stuck_at c') →
     ∀ fuel c, stuck_at c → collect_to_target fuel env c = OutOfFuel).
Proof.
  split; [|split].
  - intros fuel c c' rows. apply collect_to_target_finished.
  - intros fuel c c' Hbelow Hturn Hsame. simpl.
    apply Z.ltb_lt in Hbelow as Hb. rewrite Hb, Hturn.
    assert ((Config.TARGET_POSTS <=? get_total (tracker c')) = false) as ->
      by (apply Z.leb_gt; lia).
    destruct fuel; simpl; rewrite Hsame, Hb; reflexivity.
  - apply collect_to_target_spins.
Qed.

End Properties.

Lemma determine_severity_never_4_witness :
  _determine_severity unfall_details = Some 5 ∧
  ((5 = 1 ∨ 5 = 2 ∨ 5 = 3 ∨ 5 = 5) ∧ 5 ≠ 4).
Proof.
  split; [reflexivity | apply (determine_severity_never_4 unfall_details 5); reflexivity].
Defined.

Lemma save_batch_rows_have_coordinates_witness :
  ∃ row post lat lon,
    row ∈ (save_batch "2025-01-01T00:00:00" [post_a; post_b]).1 ∧
    post ∈ [post_a; post_b] ∧
    py_float (default (SFloat (float_lit 525200 4)) (post !! "latitude")) = Some lat ∧
    py_float (default (SFloat (float_lit 134050 4)) (post !! "longitude")) = Some lon ∧
    latitude row = float_round lat 6 ∧
    longitude row = float_round lon 6 ∧
    (post !! "latitude" = None → latitude row = float_round (float_lit 525200 4) 6) ∧
    (post !! "longitude" = None → longitude row = float_round (float_lit 134050 4) 6).
Proof.
  destruct (save_batch "2025-01-01T00:00:00" [post_a; post_b]) as [rows ok] eqn:E.
  vm_compute in E. injection E as <- <-.
  eexists. 
  assert (Hin : {| platform := SStr ""; post_id := "a"; title := "Stau in Berlin"; author := "";
             date := SStr "2025-01-01T00:00:00";
             latitude := Qmake 52520000 1000000; longitude := Qmake 13405000 1000000;
             location_name := SStr "Germany"; tags := SStr ""; url := SStr "";
             views_or_score := 0 |} ∈ (save_batch "2025-01-01T00:00:00" [post_a; post_b]).1).
  { vm_compute. left. }
  destruct (save_batch_rows_have_coordinates _ _ _ Hin) as (post & lat & lon & Hrest).
  exists post, lat, lon. split; [|exact Hrest]. left.
Defined.

Lemma collectors_emit_unseen_witness :
  RedditGermanyMassCollector.collect_batch [Some [post_a; post_b]] 5 seen_a_tracker
    = Some ([post_b], update "reddit" 1 {[ "reddit_b" ]} seen_a_tracker) ∧
  emitted_unseen "reddit_" seen_a_tracker [post_b]
    (update "reddit" 1 {[ "reddit_b" ]} seen_a_tracker).
Proof.
  assert (Hrun : RedditGermanyMassCollector.collect_batch [Some [post_a; post_b]] 5 seen_a_tracker
    = Some ([post_b], update "reddit" 1 {[ "reddit_b" ]} seen_a_tracker)).
  { vm_compute. reflexivity. }
  split; [exact Hrun|].
  exact (proj1 (collectors_emit_unseen [Some [post_a; post_b]] [] (λ _, 0) (λ _, 0)
                  (λ _, berlin_event) 5 seen_a_tracker) _ _ Hrun).
Defined.

(** C1 as the claim states it fails for the events generator: with the
    clock at 1700000000000 it emits the record [evt_1700000000000_0] although
    the key of that record is among the seen ids. *)
Lemma events_emit_seen_key :
  ∃ post key,
    post ∈ (GermanEventsMassGenerator.generate_batch (λ _, 1700000000000) (λ _, berlin_event) 1 stale_tracker).1 ∧
    post_key "event_" post = Some key ∧
    key ∈ seen_ids stale_tracker.
Proof.
  exists (GermanEventsMassGenerator.event_post 1700000000000 0 berlin_event), "event_evt_1700000000000_0".
  split; [left|]. split; [vm_compute; reflexivity|].
  apply (bool_decide_unpack _). vm_compute. exact I.
Qed.

Lemma collected_exceeds_emitted_witness :
  ∃ emitted t',
    RedditGermanyMassCollector.collect_batch [Some [post_a; post_b]] 1 fresh_tracker = Some (emitted, t') ∧
    emitted = take (Z.to_nat 1) [post_a; post_b] ∧
    Z.of_nat (length emitted) = 1 ∧
    collected t' !! "reddit"
      = Some (default 0 (collected fresh_tracker !! "reddit") + Z.of_nat (length [post_a; post_b])) ∧
    Z.of_nat (length emitted) < Z.of_nat (length [post_a; post_b]).
Proof.
  apply (collected_exceeds_emitted [Some [post_a; post_b]] 1 fresh_tracker
           [post_a; post_b] (∅ ∪ {[ "reddit_a" ]} ∪ {[ "reddit_b" ]})).
  - lia.
  - vm_compute. reflexivity.
  - simpl. lia.
Defined.

(** C6 fails in [collect_batch]: a post that two fetches of one batch
    return, and that was not seen before, is kept twice and counted
    twice. *)
Lemma reddit_batch_keeps_duplicates :
  RedditGermanyMassCollector.collect_batch [Some [post_a]; Some [post_a; post_b]] 10 fresh_tracker
    = Some ([post_a; post_a; post_b],
            update "reddit" 3 {[ "reddit_a"; "reddit_b" ]} fresh_tracker).
Proof. vm_compute. reflexivity. Qed.

Example merge_drops_later_duplicate :
  merge_loop [reddit_row "a" "first"; reddit_row "b" "other"; reddit_row "a" "second"] ∅ []
    = [reddit_row "a" "first"; reddit_row "b" "other"].
Proof. vm_compute. reflexivity. Qed.

(** C3 fails in [bast.py]: the list names three webcams and the detail
    request for the first, X42, times out; no record is returned, where the
    claim has the two records of X43 and X44. *)
Lemma webcams_lost_after_timeout :
  get_webcam_locations "A1" three_items x42_times_out = [] ∧
  length (get_traffic_warnings_detailed "A1" true three_items x42_times_out) = 2%nat.
Proof. split; vm_compute; reflexivity. Qed.

Lemma requests_follow_quota_witness :
  ∃ c', iteration quiet_env nearly_done = Some c' ∧
        requested c' = [("reddit", 1); ("news", 1); ("events", 2)].
Proof.
  destruct (iteration quiet_env nearly_done) as [c'|] eqn:Hturn.
  - exists c'. split; [reflexivity|].
    rewrite (proj1 (requests_follow_quota quiet_env nearly_done c' Hturn)).
    vm_compute. reflexivity.
  - vm_compute in Hturn. discriminate.
Defined.

Lemma stuck_resumes : tracker stuck = stuck_tracker.
Proof. vm_compute. reflexivity. Qed.

Lemma stuck_turn (c : GermanyMassCollector Q) :
  tracker c = stuck_tracker →
  ∃ c', iteration quiet_env c = Some c' ∧ tracker c' = stuck_tracker ∧
        all_posts c' = all_posts c.
Proof.
  intros Ht. unfold iteration. rewrite Ht.
  assert (Hrun : ∀ n, collect_sources quiet_env n Config.SOURCE_DISTRIBUTION stuck_tracker [] []
            = Some (stuck_tracker, [], [("reddit", 1000); ("wikipedia", 1000); ("osm", 1000)])).
  { intros n. vm_compute. reflexivity. }
  rewrite Hrun. eexists. split; [reflexivity|]. split; reflexivity.
Qed.

(** C4 as the claim states it fails: the two generators have met their
    quotas, so the total is 6000 of 20000, and no fetch returns a post; each
    turn brings no new record, and the loop is still running after any
    number of turns. *)
Lemma scheduler_spins_without_progress :
  get_total (tracker stuck) < Config.TARGET_POSTS ∧
  (∃ c', iteration quiet_env stuck = Some c' ∧
         get_total (tracker c') = get_total (tracker stuck) ∧
         all_posts c' = all_posts stuck) ∧
  ∀ fuel, collect_to_target fuel quiet_env stuck = OutOfFuel.
Proof.
  split; [by vm_compute|]. split.
  - destruct (stuck_turn stuck stuck_resumes) as (c' & Hturn & Ht & Hposts).
    exists c'. split; [done|]. split; [by rewrite Ht | done].
  - intros fuel.
    apply (collect_to_target_spins quiet_env (λ c, tracker c = stuck_tracker));
      [|exact stuck_resumes].
    intros c Hc. split; [rewrite Hc; by vm_compute|].
    destruct (stuck_turn c Hc) as (c' & Hturn & Ht & _). by exists c'.
Qed.

Lemma scheduler_stops_only_at_target_witness :
  get_total (tracker stuck) < Config.TARGET_POSTS ∧
  ∃ c', iteration quiet_env stuck = Some c' ∧
        get_total (tracker c') = get_total (tracker stuck) ∧
        collect_to_target 3 quiet_env stuck = collect_to_target 2 quiet_env c'.
Proof.
  assert (Hbelow : get_total (tracker stuck) < Config.TARGET_POSTS) by (by vm_compute).
  split; [exact Hbelow|].
  destruct (stuck_turn stuck stuck_resumes) as (c' & Hturn & Ht & _).
  assert (Hsame : get_total (tracker c') = get_total (tracker stuck)) by (by rewrite Ht).
  exists c'. split; [exact Hturn|]. split; [exact Hsame|].
  exact (proj1 (proj2 (scheduler_stops_only_at_target quiet_env))
           2%nat stuck c' Hbelow Hturn Hsame).
Defined.

Lemma save_checkpoint_writes_in_place_witness :
  interrupted !! checkpoint_file = Some [] ∧
  interrupted !! "germany_data/batch_1_20250101_000000.csv"
    = saved_once !! "germany_data/batch_1_20250101_000000.csv".
Proof.
  pose proof (save_checkpoint_writes_in_place (F:=Q) "2025-01-01T00:05:00"
                (update "reddit" 1 {[ "reddit_b" ]} seen_a_tracker) saved_once)
    as (_ & Hprefix & _ & Hother).
  split.
  - exact (Hprefix O).
  - apply (Hother 1%nat). vm_compute. discriminate.
Defined.

(** C2 as the claim states it fails: a save is interrupted right after
    it opened the checkpoint file.  The file held a checkpoint that loads;
    now it is empty, which is neither the old nor the new checkpoint and
    does not parse, and a tracker that loads it starts fresh. *)
Lemma interrupted_save_loses_checkpoint :
  ∃ old new partial,
    saved_once !! checkpoint_file = Some old ∧
    is_Some (json_load old) ∧
    load_checkpoint saved_once fresh_tracker = seen_a_tracker ∧
    save_checkpoint "2025-01-01T00:05:00"
      (update "reddit" 1 {[ "reddit_b" ]} seen_a_tracker) saved_once !! checkpoint_file
      = Some new ∧
    interrupted !! checkpoint_file = Some partial ∧
    partial ≠ old ∧ partial ≠ new ∧
    json_load partial = None ∧
    load_checkpoint interrupted fresh_tracker = fresh_tracker.
Proof.
  eexists _, _, [].
  split; [apply save_checkpoint_content|].
  split; [rewrite json_load_dump; eauto|].
  split; [vm_compute; reflexivity|].
  split; [apply save_checkpoint_content|].
  split; [vm_compute; reflexivity|].
  split; [discriminate|]. split; [discriminate|].
  split; [reflexivity|]. vm_compute. reflexivity.
Qed.

Lemma many_ids_size : size many_ids = Z.to_nat 10001.
Proof.
  unfold many_ids. rewrite size_list_to_set.
  - by rewrite length_fmap, length_seq.
  - apply (NoDup_fmap_2 _), NoDup_seq.
Qed.

(** C5 as the claim states it fails: a tracker with 10001 seen ids is
    saved and loaded; the loaded tracker has 10000 of them. *)
Lemma checkpoint_loses_ids :
  Z.of_nat (size (seen_ids big_tracker)) = 10001 ∧
  Z.of_nat (size (seen_ids
    (load_checkpoint (F:=Q) (save_checkpoint "2025-01-01T00:00:00" big_tracker ∅) fresh_tracker)))
    = 10000 ∧
  load_checkpoint (F:=Q) (save_checkpoint "2025-01-01T00:00:00" big_tracker ∅) fresh_tracker
    ≠ big_tracker.
Proof.
  assert (Hsize : Z.of_nat (size (seen_ids big_tracker)) = 10001).
  { cbn [seen_ids big_tracker]. rewrite many_ids_size. lia. }
  assert (Hkept : Z.of_nat (size (seen_ids
    (load_checkpoint (F:=Q) (save_checkpoint "2025-01-01T00:00:00" big_tracker ∅) fresh_tracker)))
    = 10000).
  { rewrite load_after_save. cbn [seen_ids]. apply kept_ids_capped. lia. }
  split; [exact Hsize|]. split; [exact Hkept|].
  intros Heq. rewrite Heq in Hkept. lia.
Qed.

Lemma checkpoint_round_trip_witness :
  Z.of_nat (size (seen_ids seen_a_tracker)) ≤ 10000 ∧
  load_checkpoint (F:=Q) (save_checkpoint "2025-01-01T00:00:00" seen_a_tracker ∅) fresh_tracker
    = seen_a_tracker.
Proof.
  assert (Hsmall : Z.of_nat (size (seen_ids seen_a_tracker)) ≤ 10000).
  { apply Z.leb_le. vm_compute. reflexivity. }
  split; [exact Hsmall|].
  destruct (checkpoint_round_trip (F:=Q) "2025-01-01T00:00:00" seen_a_tracker fresh_tracker ∅)
    as (Hcounts & _ & Hids & _).
  specialize (Hids Hsmall).
  destruct (load_checkpoint _ _) as [c ids]. simpl in Hcounts, Hids. by subst.
Defined.

(** * Further properties of the code *)

Section TrackerProps.

Lemma get_total_insert (m : gmap string Z) (source : string) (count : Z) :
  map_fold (λ _ n acc, n + acc) 0 (<[source := count]> m)
    = count + map_fold (λ _ n acc, n + acc) 0 (delete source m).
Proof.
  rewrite <- insert_delete_eq.
  rewrite map_fold_insert_L; [done| |apply lookup_delete_eq].
  intros. lia.
Qed.

Lemma get_total_delete (m : gmap string Z) (source : string) :
  map_fold (λ _ n acc, n + acc) 0 m
    = default 0 (m !! source) + map_fold (λ _ n acc, n + acc) 0 (delete source m).
Proof.
  destruct (m !! source) as [n|] eqn:E; simpl.
  - rewrite (map_fold_delete_L _ _ source n m); [done| |done]. intros. lia.
  - by rewrite delete_id.
Qed.

Lemma get_total_update (source : string) (count : Z) (ids : gset string)
    (t : ProgressTracker) :
  get_total (update source count ids t) = get_total t + count.
Proof.
  unfold get_total, update. cbn [collected].
  rewrite get_total_insert, (get_total_delete (collected t) source). lia.
Qed.

(** X1: [update] adds exactly [count] to the total of [get_total], leaves
    the count of every other source as it was, and forgets no seen id. *)
Theorem update_adds_to_total (source : string) (count : Z) (ids : gset string)
    (t : ProgressTracker) :
  get_total (update source count ids t) = get_total t + count ∧
  collected (update source count ids t) !! source
    = Some (default 0 (collected t !! source) + count) ∧
  (∀ other, other ≠ source →
     collected (update source count ids t) !! other = collected t !! other) ∧
  seen_ids (update source count ids t) = seen_ids t ∪ ids.
Proof.
  split; [apply get_total_update|]. split; [apply lookup_insert_eq|].
  split; [|done]. intros other Hne. by apply update_other.
Qed.
End TrackerProps.

Section CollectorProps.
Context {F : Type} `{PyFloat F}.

Local Abbreviation Post := (gmap string (scalar F)).

(** *** The loop over the fetches *)

Lemma gather_skips_failures (limit : Z) (results : list (option (list Post)))
    (posts : list Post) :
  gather limit results posts = gather limit (Some <$> omap id results) posts.
Proof.
  revert posts. induction results as [|[fetched|] rest IH]; intros posts; [done| |].
  - change (omap id (Some fetched :: rest)) with (fetched :: omap id rest).
    rewrite fmap_cons. simpl. by rewrite IH.
  - change (omap id (None :: rest)) with (omap id rest). simpl. apply IH.
Qed.

Lemma gather_prefix (limit : Z) (results : list (option (list Post))) (posts : list Post) :
  gather limit results posts `prefix_of` posts ++ concat (omap id results).
Proof.
  revert posts. induction results as [|[fetched|] rest IH]; intros posts.
  - simpl. by rewrite app_nil_r.
  - change (omap id (Some fetched :: rest)) with (fetched :: omap id rest).
    simpl. rewrite app_assoc.
    destruct (limit <=? Z.of_nat (length (posts ++ fetched))).
    + by apply prefix_app_r.
    + apply IH.
  - change (omap id (None :: rest)) with (omap id rest). simpl. apply IH.
Qed.

Lemma gather_overshoot (limit : Z) (most : nat) (results : list (option (list Post)))
    (posts : list Post) :
  Z.of_nat (length posts) < limit →
  Forall (λ r, ∀ fetched, r = Some fetched → (length fetched ≤ most)%nat) results →
  Z.of_nat (length (gather limit results posts)) < limit + Z.of_nat most.
Proof.
  intros Hbelow Hmost. revert posts Hbelow.
  induction Hmost as [|r rest Hr _ IH]; intros posts Hbelow; simpl; [lia|].
  destruct r as [fetched|]; [|by apply IH].
  specialize (Hr fetched eq_refl).
  destruct (limit <=? Z.of_nat (length (posts ++ fetched))) eqn:E.
  - rewrite length_app. lia.
  - apply IH. by apply Z.leb_gt.
Qed.

(** X2: the loop over the completed fetches of a [collect_batch] gives
    the same posts whether or not the fetches that raised are in the list:
    a fetch that raises adds nothing and stops nothing. *)
Theorem gather_isolates_failures (limit : Z) (results : list (option (list Post))) :
  gather limit results [] = gather limit (Some <$> omap id results) [].
Proof. apply gather_skips_failures. Qed.

(** X3: the posts gathered are the first posts fetched, in the order of
    completion, and the loop runs over the limit by less than one fetch:
    when no fetch returns more than [most] posts, fewer than
    [limit + most] posts are gathered. *)
Theorem gather_bounded (limit : Z) (most : nat) (results : list (option (list Post))) :
  0 < limit →
  Forall (λ r, ∀ fetched, r = Some fetched → (length fetched ≤ most)%nat) results →
  gather limit results [] `prefix_of` concat (omap id results) ∧
  Z.of_nat (length (gather limit results [])) < limit + Z.of_nat most.
Proof.
  intros Hlimit Hmost. split.
  - apply (gather_prefix limit results []).
  - apply gather_overshoot; [simpl; lia | done].
Qed.

(** *** Deduplication *)

Lemma dedupe_loop_sublist (prefix : string) (seen : gset string) (posts : list Post)
    (unique_posts : list Post) (new_ids : gset string) (u : list Post) (n : gset string) :
  dedupe_loop prefix seen posts unique_posts new_ids = Some (u, n) →
  ∃ kept, u = unique_posts ++ kept ∧ kept `sublist_of` posts.
Proof.
  revert unique_posts new_ids.
  induction posts as [|post rest IH]; intros unique_posts new_ids Hloop; simpl in Hloop.
  - injection Hloop as <- <-. exists []. by rewrite app_nil_r.
  - destruct (post_key prefix post) as [post_id|]; [|discriminate].
    destruct (decide (post_id ∈ seen)).
    + apply IH in Hloop as (kept & -> & Hsub). exists kept. split; [done|].
      by apply sublist_cons.
    + apply IH in Hloop as (kept & -> & Hsub). exists (post :: kept).
      split; [by rewrite <- app_assoc|]. by apply sublist_skip.
Qed.

Lemma dedupe_loop_keys (prefix : string) (seen : gset string) (posts : list Post)
    (unique_posts : list Post) (new_ids : gset string) (u : list Post) (n : gset string) :
  dedupe_loop prefix seen posts unique_posts new_ids = Some (u, n) →
  ∀ post, post ∈ posts → ∃ key, post_key prefix post = Some key ∧ key ∈ seen ∪ n.
Proof.
  revert unique_posts new_ids.
  induction posts as [|post rest IH]; intros unique_posts new_ids Hloop q Hq.
  - by apply elem_of_nil in Hq.
  - simpl in Hloop.
    destruct (post_key prefix post) as [post_id|] eqn:Ekey; [|discriminate].
    apply elem_of_cons in Hq as [->|Hq].
    + exists post_id. split; [done|].
      destruct (decide (post_id ∈ seen)) as [Hseen|Hnew].
      * apply elem_of_union. by left.
      * apply dedupe_loop_inv in Hloop as [Hsub _].
        apply elem_of_union. right. apply Hsub, elem_of_union. right.
        by apply elem_of_singleton.
    + destruct (decide (post_id ∈ seen)); by eapply IH.
Qed.

Lemma dedupe_loop_all_seen (prefix : string) (seen : gset string) (posts : list Post)
    (unique_posts : list Post) (new_ids : gset string) :
  (∀ post, post ∈ posts → ∃ key, post_key prefix post = Some key ∧ key ∈ seen) →
  dedupe_loop prefix seen posts unique_posts new_ids = Some (unique_posts, new_ids).
Proof.
  induction posts as [|post rest IH]; intros Hseen; [done|]. simpl.
  destruct (Hseen post ltac:(left)) as (key & -> & Hkey).
  rewrite decide_True by done. apply IH. intros q Hq. apply Hseen. by right.
Qed.

Lemma dedupe_and_track_again (prefix source : string) (posts : list Post) (b1 b2 : Z)
    (t t' : ProgressTracker) (emitted : list Post) :
  dedupe_and_track prefix source posts b1 t = Some (emitted, t') →
  dedupe_and_track prefix source posts b2 t' = Some ([], update source 0 ∅ t').
Proof.
  unfold dedupe_and_track.
  destruct (dedupe_loop prefix (seen_ids t) posts [] ∅) as [[u n]|] eqn:Eloop; [|discriminate].
  intros [= _ <-]. cbn [seen_ids update].
  rewrite dedupe_loop_all_seen.
  - unfold py_slice_to. destruct (b2 <? 0); by rewrite take_nil.
  - intros post Hpost. by eapply dedupe_loop_keys.
Qed.

(** X4: a reddit batch that gathers the posts of the batch before it
    once more emits none of them and counts none: every key of the first
    pass is among the seen ids by then, so the total stays as it is. *)
Theorem collect_batch_again_is_empty (results : list (option (list Post))) (batch_size : Z)
    (t t' : ProgressTracker) (emitted : list Post) :
  RedditGermanyMassCollector.collect_batch results batch_size t = Some (emitted, t') →
  ∃ t'',
    RedditGermanyMassCollector.collect_batch results batch_size t' = Some ([], t'') ∧
    get_total t'' = get_total t' ∧
    seen_ids t'' = seen_ids t'.
Proof.
  unfold RedditGermanyMassCollector.collect_batch. intros Hfirst.
  exists (update "reddit" 0 ∅ t'). split; [by eapply dedupe_and_track_again|].
  split; [rewrite get_total_update; lia|]. cbn [seen_ids update].
  apply (right_id_L ∅ (∪)).
Qed.

(** X5: what a reddit batch emits are posts that were fetched, in the
    order in which they were fetched, and at most [batch_size] of them. *)
Theorem collect_batch_emits_fetched (results : list (option (list Post))) (batch_size : Z)
    (t t' : ProgressTracker) (emitted : list Post) :
  0 ≤ batch_size →
  RedditGermanyMassCollector.collect_batch results batch_size t = Some (emitted, t') →
  emitted `sublist_of` concat (omap id results) ∧
  Z.of_nat (length emitted) ≤ batch_size.
Proof.
  intros Hpos. unfold RedditGermanyMassCollector.collect_batch, dedupe_and_track.
  destruct (dedupe_loop _ _ _ _ _) as [[u n]|] eqn:Eloop; [|discriminate].
  intros [= <- _]. rewrite py_slice_to_take by done.
  apply dedupe_loop_sublist in Eloop as (kept & -> & Hsub). simpl. split.
  - etrans; [apply sublist_take|]. etrans; [exact Hsub|].
    destruct (gather_prefix batch_size results []) as [k Hk]. simpl in Hk. rewrite Hk.
    by apply sublist_inserts_r.
  - rewrite length_take. lia.
Qed.
End CollectorProps.

Section SchedulerProps.
Context {F : Type} `{PyFloat F}.

Local Abbreviation Post := (gmap string (scalar F)).

Lemma tracker_grows_refl (t : ProgressTracker) : tracker_grows t t.
Proof. by repeat split. Qed.

Lemma tracker_grows_trans (t1 t2 t3 : ProgressTracker) :
  tracker_grows t1 t2 → tracker_grows t2 t3 → tracker_grows t1 t3.
Proof.
  intros (Ha & Hb & Hc) (Ha' & Hb' & Hc'). split; [lia|]. split; [by etrans|].
  intros source. specialize (Hc source). specialize (Hc' source). lia.
Qed.

Lemma update_grows (source : string) (count : Z) (ids : gset string) (t : ProgressTracker) :
  0 ≤ count → tracker_grows t (update source count ids t).
Proof.
  intros Hcount. split; [rewrite get_total_update; lia|].
  split; [cbn [seen_ids update]; apply union_subseteq_l|].
  intros other. destruct (decide (other = source)) as [->|Hne].
  - cbn [collected update]. rewrite lookup_insert_eq. simpl. lia.
  - by rewrite update_other.
Qed.

Lemma dedupe_and_track_grows (prefix source : string) (posts : list Post) (batch_size : Z)
    (t t' : ProgressTracker) (emitted : list Post) :
  dedupe_and_track prefix source posts batch_size t = Some (emitted, t') →
  tracker_grows t t'.
Proof.
  unfold dedupe_and_track.
  destruct (dedupe_loop _ _ _ _ _) as [[u ids]|]; [|discriminate].
  intros [= _ <-]. apply update_grows. lia.
Qed.

Lemma collect_from_grows (env : Env F) (n : nat) (source : string) (needed : Z)
    (t t' : ProgressTracker) (posts : list Post) :
  collect_from env n source needed t = Some (posts, t') → tracker_grows t t'.
Proof.
  unfold collect_from.
  repeat match goal with
  | |- context [String.eqb source ?s] => destruct (String.eqb source s)
  end;
  first [ by apply dedupe_and_track_grows
        | intros [= _ <-]; apply update_grows; lia
        | intros [= _ <-]; apply tracker_grows_refl ].
Qed.

Lemma collect_sources_grows (env : Env F) (n : nat) (sources : list (string * Z))
    (t : ProgressTracker) (batch_posts : list Post) (log : list (string * Z))
    (t' : ProgressTracker) (batch_posts' : list Post) (log' : list (string * Z)) :
  collect_sources env n sources t batch_posts log = Some (t', batch_posts', log') →
  tracker_grows t t'.
Proof.
  revert t batch_posts log.
  induction sources as [|[source quota] rest IH]; intros t batch_posts log Hrun; simpl in Hrun.
  - injection Hrun as <- _ _. apply tracker_grows_refl.
  - destruct (default 0 (collected t !! source) <? quota).
    + destruct (collect_from env n source _ t) as [[posts t1]|] eqn:Ecall; [|discriminate].
      eapply tracker_grows_trans; [by eapply collect_from_grows | by eapply IH].
    + by eapply IH.
Qed.

(** X6: a turn of the scheduler that completes takes nothing back: the
    total, the seen ids and the count of every source are at least what
    they were, the posts collected so far are kept in front of the new
    ones, and the batch number is one more. *)
Theorem iteration_grows (env : Env F) (c c' : GermanyMassCollector F) :
  iteration env c = Some c' →
  tracker_grows (tracker c) (tracker c') ∧
  all_posts c `prefix_of` all_posts c' ∧
  batch_num c' = S (batch_num c).
Proof.
  unfold iteration.
  destruct (collect_sources _ _ _ _ _ _) as [[[t posts] log]|] eqn:Erun; [|discriminate].
  apply collect_sources_grows in Erun.
  destruct posts as [|p posts].
  - intros [= <-]. cbn. split; [done|]. split; [reflexivity | done].
  - destruct (save_batch _ _) as [rows [|]]; [|discriminate].
    intros [= <-]. cbn. split; [done|]. split; [by apply prefix_app_r | done].
Qed.

Lemma collect_sources_count (env : Env F) (n : nat) (sources : list (string * Z))
    (t : ProgressTracker) (batch_posts : list Post) (log : list (string * Z))
    (t' : ProgressTracker) (batch_posts' : list Post) (log' : list (string * Z))
    (source : string) (quota : Z) :
  NoDup sources.*1 →
  collect_sources env n sources t batch_posts log = Some (t', batch_posts', log') →
  (source, quota) ∈ sources →
  if default 0 (collected t !! source) <? quota then
    ∃ ta posts t1,
      collected ta !! source = collected t !! source ∧
      collect_from env n source
        (Z.min Config.BATCH_SIZE (quota - default 0 (collected t !! source))) ta
        = Some (posts, t1) ∧
      collected t' !! source = collected t1 !! source
  else collected t' !! source = collected t !! source.
Proof.
  revert t batch_posts log.
  induction sources as [|[s0 q0] rest IH]; intros t batch_posts log Hnd Hrun Hin.
  - by apply elem_of_nil in Hin.
  - rewrite fmap_cons in Hnd. apply NoDup_cons in Hnd as [Hfresh Hnd]. simpl in Hfresh.
    simpl in Hrun. apply elem_of_cons in Hin as [[= -> ->]|Hin].
    + destruct (default 0 (collected t !! s0) <? q0) eqn:Ebelow.
      * destruct (collect_from env n s0 _ t) as [[posts t1]|] eqn:Ecall; [|discriminate].
        apply collect_sources_log in Hrun as [_ Hother]; [|done].
        exists t, posts, t1. split; [done|]. split; [done|]. by apply Hother.
      * apply collect_sources_log in Hrun as [_ Hother]; [|done]. by apply Hother.
    + assert (Hne : source ≠ s0).
      { intros ->. apply Hfresh, list_elem_of_fmap. by exists (s0, quota). }
      destruct (default 0 (collected t !! s0) <? q0).
      * destruct (collect_from env n s0 _ t) as [[posts t1]|] eqn:Ecall; [|discriminate].
        pose proof (collect_from_other _ _ _ source _ _ _ _ Hne Ecall) as Hsame.
        specialize (IH _ _ _ Hnd Hrun Hin). rewrite Hsame in IH.
        destruct (default 0 (collected t !! source) <? quota); [|done].
        destruct IH as (ta & posts' & t2 & Hta & Hcall & Hres).
        exists ta, posts', t2. done.
      * by apply (IH _ _ _ Hnd Hrun Hin).
Qed.

Lemma iteration_sources (env : Env F) (c c' : GermanyMassCollector F) :
  iteration env c = Some c' →
  ∃ posts log,
    collect_sources env (S (batch_num c)) Config.SOURCE_DISTRIBUTION (tracker c) [] []
      = Some (tracker c', posts, log).
Proof.
  unfold iteration.
  destruct (collect_sources _ _ _ _ _ _) as [[[t posts] log]|] eqn:Erun; [|discriminate].
  destruct posts as [|p posts].
  - intros [= <-]. eauto.
  - destruct (save_batch _ _) as [rows [|]]; [|discriminate]. intros [= <-]. eauto.
Qed.

(** X7: the two generators never run over their quota.  After a turn
    that completes, the count of events is the smaller of 4000 and the
    count before plus 1000, unless it was past 4000 already; the same for
    news with 2000. *)
Theorem generators_fill_quota (env : Env F) (c c' : GermanyMassCollector F) :
  iteration env c = Some c' →
  default 0 (collected (tracker c') !! "events")
    = Z.max (default 0 (collected (tracker c) !! "events"))
            (Z.min 4000 (default 0 (collected (tracker c) !! "events") + 1000)) ∧
  default 0 (collected (tracker c') !! "news")
    = Z.max (default 0 (collected (tracker c) !! "news"))
            (Z.min 2000 (default 0 (collected (tracker c) !! "news") + 1000)).
Proof.
  intros (posts & log & Hrun)%iteration_sources. split.
  - pose proof (collect_sources_count _ _ _ _ _ _ _ _ _ "events" 4000
                  source_names_distinct Hrun) as Hcount.
    specialize (Hcount ltac:(repeat constructor)).
    destruct (default 0 (collected (tracker c) !! "events") <? 4000) eqn:Ebelow.
    + apply Z.ltb_lt in Ebelow.
      destruct Hcount as (ta & ps & t1 & Hta & Hcall & ->).
      unfold collect_from in Hcall. cbn [String.eqb Ascii.eqb Bool.eqb] in Hcall.
      injection Hcall as _ <-.
      cbn [collected update snd GermanEventsMassGenerator.generate_batch].
      rewrite lookup_insert_eq, Hta, length_fmap, length_seq. simpl.
      unfold Config.BATCH_SIZE. lia.
    + apply Z.ltb_ge in Ebelow. rewrite Hcount. lia.
  - pose proof (collect_sources_count _ _ _ _ _ _ _ _ _ "news" 2000
                  source_names_distinct Hrun) as Hcount.
    specialize (Hcount ltac:(repeat constructor)).
    destruct (default 0 (collected (tracker c) !! "news") <? 2000) eqn:Ebelow.
    + apply Z.ltb_lt in Ebelow.
      destruct Hcount as (ta & ps & t1 & Hta & Hcall & ->).
      unfold collect_from in Hcall. cbn [String.eqb Ascii.eqb Bool.eqb] in Hcall.
      injection Hcall as _ <-.
      cbn [collected update snd GermanNewsMassCollector.collect_batch].
      rewrite lookup_insert_eq, Hta, length_fmap, length_seq. simpl.
      unfold Config.BATCH_SIZE. lia.
    + apply Z.ltb_ge in Ebelow. rewrite Hcount. lia.
Qed.


End SchedulerProps.

(** *** Strings *)

Lemma chars_of_append (s1 s2 : string) : chars_of (s1 +:+ s2) = chars_of s1 ++ chars_of s2.
Proof. induction s1 as [|c s1 IH]; simpl; [done | by rewrite IH]. Qed.

Lemma chars_of_inj (s1 s2 : string) : chars_of s1 = chars_of s2 → s1 = s2.
Proof.
  revert s2. induction s1 as [|c s1 IH]; intros [|d s2] Heq; simpl in Heq; try done.
  injection Heq as -> Heq. f_equal. by apply IH.
Qed.

Lemma str_take_length (n : nat) (s : string) : (String.length (str_take n s) ≤ n)%nat.
Proof.
  revert s. induction n as [|n IH]; intros [|c s]; simpl; try lia.
  specialize (IH s). lia.
Qed.

Lemma str_take_chars (n : nat) (s : string) : chars_of (str_take n s) = take n (chars_of s).
Proof. revert s. induction n as [|n IH]; intros [|c s]; simpl; try done. by rewrite IH. Qed.

Lemma replace_newline_chars (s : string) : ascii_of_nat 10 ∉ chars_of (replace_newline s).
Proof.
  induction s as [|c s IH]; simpl; [apply not_elem_of_nil|].
  apply not_elem_of_cons. split; [|done].
  destruct (Ascii.eqb_spec c (ascii_of_nat 10)); [discriminate | congruence].
Qed.

(** the digits of a number hold no underscore *)
Lemma pretty_N_go_no_underscore (x : N) (s : string) :
  "_"%char ∉ chars_of s → "_"%char ∉ chars_of (pretty_N_go x s).
Proof.
  revert s. induction (N.lt_wf_0 x) as [x _ IH]; intros s Hs.
  assert (x = 0 ∨ 0 < x)%N as [->|Hpos] by lia.
  - by rewrite pretty_N_go_0.
  - rewrite pretty_N_go_step by done. apply IH; [by apply N.div_lt|].
    simpl. apply not_elem_of_cons. split; [|done].
    unfold pretty_N_char. by repeat case_match.
Qed.

Lemma pretty_nat_no_underscore (i : nat) : "_"%char ∉ chars_of (pretty i).
Proof.
  unfold pretty, pretty_nat, pretty, pretty_N.
  destruct (decide (N.of_nat i = 0%N)).
  - simpl. intros [Hin|Hin]%elem_of_cons; [discriminate | by apply elem_of_nil in Hin].
  - apply pretty_N_go_no_underscore. apply not_elem_of_nil.
Qed.

(** two lists that agree, each cut at an occurrence of [x] after which
    there is no [x], agree after the cut *)
Lemma after_last_occurrence {A} (x : A) (l1 l2 r1 r2 : list A) :
  x ∉ r1 → x ∉ r2 → l1 ++ x :: r1 = l2 ++ x :: r2 → r1 = r2.
Proof.
  intros H1 H2. revert l2. induction l1 as [|a l1 IH]; intros [|b l2] Heq; simpl in Heq.
  - by injection Heq.
  - injection Heq as Hx Hr. subst. destruct H1. apply elem_of_app. right. by left.
  - injection Heq as Hx Hr. subst. destruct H2. apply elem_of_app. right. by left.
  - injection Heq as _ Heq. by eapply IH.
Qed.

Lemma numbered_inj (a b : string) (i j : nat) :
  a +:+ "_" +:+ pretty i = b +:+ "_" +:+ pretty j → i = j.
Proof.
  intros Heq. apply (f_equal chars_of) in Heq.
  rewrite !chars_of_append in Heq. simpl in Heq.
  apply after_last_occurrence in Heq; try apply pretty_nat_no_underscore.
  apply chars_of_inj in Heq. by apply (inj pretty) in Heq.
Qed.

Section OutputProps.
Context {F : Type} `{PyFloat F}.

Local Abbreviation Post := (gmap string (scalar F)).

(** *** The batch files *)

Lemma save_batch_spec (now : string) (posts : list Post) :
  Forall2 (λ post row, csv_row now post = Some row)
    (take (length (save_batch now posts).1) posts) (save_batch now posts).1 ∧
  ((save_batch now posts).2 = true → length (save_batch now posts).1 = length posts) ∧
  ((save_batch now posts).2 = false →
     ∃ post, posts !! length (save_batch now posts).1 = Some post ∧ csv_row now post = None).
Proof.
  induction posts as [|post rest (IHrows & IHok & IHbad)]; simpl.
  - split; [constructor|]. split; [done | discriminate].
  - destruct (csv_row now post) as [row|] eqn:Erow.
    + destruct (save_batch now rest) as [rows ok]. simpl in *.
      split; [by constructor|]. split; [intros Hok; by rewrite IHok | done].
    + simpl. split; [constructor|]. split; [discriminate|]. eauto.
Qed.


Lemma csv_row_title (now : string) (post : Post) (row : Row F) :
  csv_row now post = Some row →
  title row
    = str_take 200 (replace_newline (py_str (default (SStr "") (post !! "title")))).
Proof.
  unfold csv_row.
  repeat match goal with
  | |- match ?x with _ => _ end = _ → _ => destruct x; try discriminate
  end.
  intros Hrow. apply (f_equal (option_map title)) in Hrow. simpl in Hrow.
  by injection Hrow as <-.
Qed.

(** X10: the title of every row that [save_batch] writes has at most 200
    characters and no line break. *)
Theorem save_batch_titles_one_line (now : string) (posts : list Post) (row : Row F) :
  row ∈ (save_batch now posts).1 →
  (String.length (title row) ≤ 200)%nat ∧ ascii_of_nat 10 ∉ chars_of (title row).
Proof.
  intros (post & _ & Hrow)%save_batch_rows.
  rewrite (csv_row_title _ _ _ Hrow). split; [apply str_take_length|].
  rewrite str_take_chars. intros Hin%subseteq_take. by apply replace_newline_chars in Hin.
Qed.

(** *** The generated events *)

Lemma event_post_fields (ms : Z) (i : nat) (g : Generated F) :
  GermanEventsMassGenerator.event_post ms i g !! "post_id"
    = Some (SStr ("evt_" +:+ pretty ms +:+ "_" +:+ pretty i)) ∧
  GermanEventsMassGenerator.event_post ms i g !! "latitude"
    = Some (SFloat (float_round (g_lat g) 6)) ∧
  GermanEventsMassGenerator.event_post ms i g !! "longitude"
    = Some (SFloat (float_round (g_lon g) 6)) ∧
  GermanEventsMassGenerator.event_post ms i g !! "views" = Some (SInt (g_views g)).
Proof.
  unfold GermanEventsMassGenerator.event_post.
  generalize ("evt_" +:+ pretty ms +:+ "_" +:+ pretty i). intros event_id.
  generalize (float_round (g_lat g) 6) (float_round (g_lon g) 6). intros lat lon.
  destruct g. cbn. repeat split; vm_compute; reflexivity.
Qed.

Lemma news_post_fields (ms s : Z) (i : nat) (g : Generated F) :
  GermanNewsMassCollector.news_post ms s i g !! "post_id"
    = Some (SStr ("news_" +:+ pretty ms +:+ "_" +:+ pretty i)) ∧
  GermanNewsMassCollector.news_post ms s i g !! "latitude" = Some (SFloat (g_lat g)) ∧
  GermanNewsMassCollector.news_post ms s i g !! "longitude" = Some (SFloat (g_lon g)) ∧
  GermanNewsMassCollector.news_post ms s i g !! "views" = Some (SInt (g_views g)).
Proof.
  unfold GermanNewsMassCollector.news_post.
  generalize ("news_" +:+ pretty ms +:+ "_" +:+ pretty i). intros news_id.
  generalize ("https://news.de/article/" +:+ pretty s +:+ "_" +:+ pretty i). intros link.
  generalize (str_take 200 (g_title g)). intros short.
  destruct g. cbn. repeat split; vm_compute; reflexivity.
Qed.

Lemma event_keys (time_ms : nat → Z) (random : nat → Generated F) (l : list nat) :
  omap (post_key "event_")
    ((λ i, GermanEventsMassGenerator.event_post (time_ms i) i (random i)) <$> l)
  = (λ i, "event_" +:+ "evt_" +:+ pretty (time_ms i) +:+ "_" +:+ pretty i) <$> l.
Proof.
  induction l as [|i l IH]; [done|]. rewrite !fmap_cons.
  change (omap ?f (?x :: ?r)) with (match f x with Some y => y :: omap f r | None => omap f r end).
  unfold post_key at 1.
  destruct (event_post_fields (time_ms i) i (random i)) as (-> & _).
  by rewrite IH.
Qed.

(** X11: a batch of the events generator holds exactly [batch_size]
    posts, the keys of any two of them differ (the index is part of the
    identifier, whatever the clock reads), and the total and the count of
    events go up by [batch_size]. *)
Theorem generate_batch_distinct (time_ms : nat → Z) (random : nat → Generated F)
    (batch_size : Z) (t : ProgressTracker) :
  length (GermanEventsMassGenerator.generate_batch time_ms random batch_size t).1
    = Z.to_nat batch_size ∧
  NoDup (omap (post_key "event_")
           (GermanEventsMassGenerator.generate_batch time_ms random batch_size t).1) ∧
  length (omap (post_key "event_")
            (GermanEventsMassGenerator.generate_batch time_ms random batch_size t).1)
    = Z.to_nat batch_size ∧
  get_total (GermanEventsMassGenerator.generate_batch time_ms random batch_size t).2
    = get_total t + Z.of_nat (Z.to_nat batch_size).
Proof.
  unfold GermanEventsMassGenerator.generate_batch. cbn [fst snd].
  rewrite event_keys, !length_fmap, length_seq.
  split; [done|]. split; [|split; [done | by rewrite get_total_update]].
  apply NoDup_fmap_2_strong; [|apply NoDup_seq].
  intros i j _ _ Heq.
  change ("event_" +:+ "evt_" +:+ pretty (time_ms i) +:+ "_" +:+ pretty i)
    with (("event_evt_" +:+ pretty (time_ms i)) +:+ "_" +:+ pretty i) in Heq.
  change ("event_" +:+ "evt_" +:+ pretty (time_ms j) +:+ "_" +:+ pretty j)
    with (("event_evt_" +:+ pretty (time_ms j)) +:+ "_" +:+ pretty j) in Heq.
  by apply numbered_inj in Heq.
Qed.

Lemma csv_row_event (now : string) (ms : Z) (i : nat) (g : Generated F) :
  is_Some (csv_row now (GermanEventsMassGenerator.event_post ms i g)).
Proof.
  unfold csv_row.
  destruct (event_post_fields ms i g) as (_ & -> & -> & ->).
  cbn [from_option id py_float py_int]. eauto.
Qed.

Lemma csv_row_news (now : string) (ms s : Z) (i : nat) (g : Generated F) :
  is_Some (csv_row now (GermanNewsMassCollector.news_post ms s i g)).
Proof.
  unfold csv_row.
  destruct (news_post_fields ms s i g) as (_ & -> & -> & ->).
  cbn [from_option id py_float py_int]. eauto.
Qed.

Lemma save_batch_all (now : string) (posts : list Post) :
  Forall (λ post, is_Some (csv_row now post)) posts →
  (save_batch now posts).2 = true ∧ length (save_batch now posts).1 = length posts.
Proof.
  induction 1 as [|post rest [row Hrow] _ [IHok IHlen]]; simpl; [done|].
  rewrite Hrow. destruct (save_batch now rest) as [rows ok]. simpl in *. by rewrite IHlen.
Qed.

(** X12: [save_batch] never raises on what the two generators produce:
    every generated event and every generated news post becomes a row. *)
Theorem generated_posts_are_saved (now : string) (time_ms time_s : nat → Z)
    (random : nat → Generated F) (batch_size : Z) (t : ProgressTracker) :
  (save_batch now (GermanEventsMassGenerator.generate_batch time_ms random batch_size t).1).2
    = true ∧
  length (save_batch now
            (GermanEventsMassGenerator.generate_batch time_ms random batch_size t).1).1
    = Z.to_nat batch_size ∧
  (save_batch now
     (GermanNewsMassCollector.collect_batch time_ms time_s random batch_size t).1).2 = true ∧
  length (save_batch now
            (GermanNewsMassCollector.collect_batch time_ms time_s random batch_size t).1).1
    = Z.to_nat batch_size.
Proof.
  unfold GermanEventsMassGenerator.generate_batch, GermanNewsMassCollector.collect_batch.
  cbn [fst].
  destruct (save_batch_all now
    ((λ i, GermanEventsMassGenerator.event_post (time_ms i) i (random i))
       <$> seq 0 (Z.to_nat batch_size))) as [Hok Hlen].
  { apply Forall_fmap, Forall_forall. intros i _.
    exact (csv_row_event now (time_ms i) i (random i)). }
  destruct (save_batch_all now
    ((λ i, GermanNewsMassCollector.news_post (time_ms i) (time_s i) i (random i))
       <$> seq 0 (Z.to_nat batch_size))) as [Hok' Hlen'].
  { apply Forall_fmap, Forall_forall. intros i _.
    exact (csv_row_news now (time_ms i) (time_s i) i (random i)). }
  rewrite Hok, Hlen, Hok', Hlen', !length_fmap, !length_seq. done.
Qed.

(** *** The final merge *)


Lemma merge_loop_distinct (rows : list CsvRow) (seen : gset string) (unique_rows : list CsvRow) :
  NoDup (row_key <$> rows) →
  (∀ row, row ∈ rows → row_key row ∉ seen) →
  merge_loop rows seen unique_rows = unique_rows ++ rows.
Proof.
  revert seen unique_rows.
  induction rows as [|r rest IH]; intros seen unique_rows Hnd Hnew; simpl.
  - by rewrite app_nil_r.
  - rewrite fmap_cons in Hnd. apply NoDup_cons in Hnd as [Hfresh Hnd].
    rewrite decide_False by (apply Hnew; left).
    rewrite IH; [by rewrite <- app_assoc | done |].
    intros row Hrow [Hin|Hin%elem_of_singleton]%elem_of_union.
    + by apply (Hnew row); [right|].
    + apply Hfresh. rewrite <- Hin. apply list_elem_of_fmap. by exists row.
Qed.



(** X14: merging rows that are merged already changes nothing. *)
Theorem merge_loop_idempotent (all_rows : list CsvRow) :
  merge_loop (merge_loop all_rows ∅ []) ∅ [] = merge_loop all_rows ∅ [].
Proof.
  destruct (merge_loop_spec all_rows ∅ []) as (kept & -> & _ & Hnd & _). simpl.
  rewrite merge_loop_distinct; [done | done |].
  intros row _. apply not_elem_of_empty.
Qed.

(** *** The posts and the rows of a run *)

(** X15: a turn of the scheduler keeps the batch files in step with the
    posts collected: when the rows of the batch files are the rows of the
    posts so far, one for each in order, they are so after the turn. *)
Theorem iteration_keeps_rows_in_step (env : Env F) (c c' : GermanyMassCollector F) :
  Forall2 (λ post row, ∃ now, csv_row now post = Some row)
    (all_posts c) (concat (csv_files c)) →
  iteration env c = Some c' →
  Forall2 (λ post row, ∃ now, csv_row now post = Some row)
    (all_posts c') (concat (csv_files c')).
Proof.
  intros Hstep. unfold iteration.
  destruct (collect_sources _ _ _ _ _ _) as [[[t posts] log]|]; [|discriminate].
  destruct posts as [|p posts]; [by intros [= <-]|].
  destruct (save_batch _ (p :: posts)) as [rows ok] eqn:Esave.
  destruct ok; [|discriminate]. intros [= <-]. cbn [all_posts csv_files].
  rewrite concat_app. simpl. rewrite app_nil_r.
  apply Forall2_app; [done|].
  destruct (save_batch_spec (now_iso env (S (batch_num c))) (p :: posts)) as (Hrows & Hok & _).
  rewrite Esave in Hrows, Hok. cbn [fst snd] in Hrows, Hok.
  specialize (Hok eq_refl). rewrite Hok, firstn_all in Hrows.
  eapply Forall2_impl; [exact Hrows|]. intros post row Hrow. by exists (now_iso env (S (batch_num c))).
Qed.
End OutputProps.

(** *** A checkpoint file cut short *)

Section TruncatedCheckpoint.
Context {F : Type}.

Lemma parse_value_nil (n : nat) : parse_value n (@nil (token F)) = None.
Proof. by destruct n. Qed.

(** what the parser accepts is the dump of what it returns *)
Lemma parse_sound (n : nat) :
  (∀ (ts : list (token F)) v rest,
     parse_value n ts = Some (v, rest) → ts = dump v ++ rest) ∧
  (∀ (ts : list (token F)) xs rest,
     parse_items n ts = Some (xs, rest) → ts = items_tail xs ++ TRBracket :: rest) ∧
  (∀ (ts : list (token F)) ms rest,
     parse_members n ts = Some (ms, rest) → ts = members_tail ms ++ TRBrace :: rest).
Proof.
  induction n as [|n (IHv & IHi & IHm)]; [repeat split; intros; discriminate|].
  split; [|split].
  - intros ts v rest Hp. destruct ts as [|tok ts]; [discriminate|].
    destruct tok; try discriminate.
    + destruct ts as [|tok2 ts]; [discriminate|].
      destruct tok2 as [| | | | | |key]; try discriminate.
      * injection Hp as <- <-. reflexivity.
      * destruct key as [| | | |k]; try discriminate.
        destruct ts as [|tok3 ts]; [discriminate|].
        destruct tok3; try discriminate. simpl in Hp.
        destruct (parse_value n ts) as [[x r1]|] eqn:E1; [|discriminate].
        destruct (parse_members n r1) as [[xs r2]|] eqn:E2; [|discriminate].
        injection Hp as <- <-. apply IHv in E1 as ->. apply IHm in E2 as ->.
        rewrite dump_obj_cons. simpl. by rewrite <- !app_assoc.
    + destruct ts as [|tok2 ts].
      { simpl in Hp. rewrite parse_value_nil in Hp. discriminate. }
      assert (Hcases : tok2 = TRBracket ∨
                parse_value (S n) (TLBracket :: tok2 :: ts)
                = match parse_value n (tok2 :: ts) with
                  | Some (x, r1) =>
                      match parse_items n r1 with
                      | Some (xs, r2) => Some (JArr (x :: xs), r2)
                      | None => None
                      end
                  | None => None
                  end).
      { destruct tok2; auto. }
      destruct Hcases as [->|Hstep].
      * injection Hp as <- <-. reflexivity.
      * rewrite Hstep in Hp.
        destruct (parse_value n (tok2 :: ts)) as [[x r1]|] eqn:E1; [|discriminate].
        destruct (parse_items n r1) as [[xs r2]|] eqn:E2; [|discriminate].
        injection Hp as <- <-. apply IHv in E1. apply IHi in E2 as ->.
        rewrite dump_arr_cons, E1. simpl. by rewrite <- !app_assoc.
    + injection Hp as <- <-. reflexivity.
  - intros ts xs rest Hp. destruct ts as [|tok ts]; [discriminate|].
    destruct tok; try discriminate.
    + injection Hp as <- <-. reflexivity.
    + simpl in Hp.
      destruct (parse_value n ts) as [[x r1]|] eqn:E1; [|discriminate].
      destruct (parse_items n r1) as [[ys r2]|] eqn:E2; [|discriminate].
      injection Hp as <- <-. apply IHv in E1 as ->. apply IHi in E2 as ->.
      rewrite items_tail_cons. simpl. by rewrite <- !app_assoc.
  - intros ts ms rest Hp. destruct ts as [|tok ts]; [discriminate|].
    destruct tok; try discriminate.
    + injection Hp as <- <-. reflexivity.
    + destruct ts as [|tok2 ts]; [discriminate|].
      destruct tok2 as [| | | | | |key]; try discriminate.
      destruct key as [| | | |k]; try discriminate.
      destruct ts as [|tok3 ts]; [discriminate|].
      destruct tok3; try discriminate. simpl in Hp.
      destruct (parse_value n ts) as [[x r1]|] eqn:E1; [|discriminate].
      destruct (parse_members n r1) as [[ys r2]|] eqn:E2; [|discriminate].
      injection Hp as <- <-. apply IHv in E1 as ->. apply IHm in E2 as ->.
      rewrite members_tail_cons. simpl. by rewrite <- !app_assoc.
Qed.

Lemma json_load_sound (content : list (token F)) (v : json F) :
  json_load content = Some v → content = dump v.
Proof.
  unfold json_load.
  destruct (parse_value _ content) as [[w rest]|] eqn:Ep; [|discriminate].
  destruct rest; [|discriminate]. intros [= <-].
  destruct (parse_sound (S (length content))) as [Hv _].
  apply Hv in Ep. by rewrite app_nil_r in Ep.
Qed.

(** no dump is the start of a longer dump *)
Lemma dump_prefix_free (v w : json F) (rest : list (token F)) :
  dump w ++ rest = dump v → rest = [].
Proof.
  intros Heq.
  destruct (parse_round_trip (F:=F) (length (dump v))) as [Hv _].
  pose proof (Hv v [] ltac:(lia)) as Hpv. rewrite app_nil_r in Hpv.
  assert (Hlen : (length (dump w) ≤ length (dump v))%nat).
  { rewrite <- Heq, length_app. lia. }
  pose proof (Hv w rest Hlen) as Hpw. rewrite Heq, Hpv in Hpw. by injection Hpw.
Qed.

Lemma json_load_truncated (v : json F) (k : nat) :
  (k < length (dump v))%nat → json_load (take k (dump v)) = None.
Proof.
  intros Hk. destruct (json_load (take k (dump v))) as [w|] eqn:Eload; [|done].
  apply json_load_sound in Eload.
  pose proof (take_drop k (dump v)) as Hsplit. rewrite Eload in Hsplit.
  apply dump_prefix_free in Hsplit.
  apply (f_equal length) in Hsplit. rewrite length_drop in Hsplit. simpl in Hsplit. lia.
Qed.

(** X16: a save of the checkpoint that is cut short, after its [open]
    and before its last write, leaves a file that does not parse, whatever
    the tracker and wherever the cut: a tracker that loads it is left as it
    is, so the run starts fresh. *)
Theorem truncated_checkpoint_starts_fresh (now : string) (t t0 : ProgressTracker)
    (fs : gmap string (list (token F))) (n : nat) :
  (1 ≤ n ≤ length (dump (checkpoint_data (F:=F) now t)))%nat →
  load_checkpoint (fs_run (take n (save_checkpoint_ops now t)) fs) t0 = t0.
Proof.
  intros [Hone Hcut]. destruct n as [|k]; [lia|].
  unfold load_checkpoint. rewrite save_checkpoint_prefix.
  by rewrite json_load_truncated by lia.
Qed.
End TruncatedCheckpoint.

(** *** The highway scrapers *)

Lemma py_lower_append (s1 s2 : string) : py_lower (s1 +:+ s2) = py_lower s1 +:+ py_lower s2.
Proof. induction s1 as [|c s1 IH]; simpl; [done | by rewrite IH]. Qed.

Lemma prefix_append (w s1 s2 : string) :
  String.prefix w s1 = true → String.prefix w (s1 +:+ s2) = true.
Proof.
  revert s1. induction w as [|a w IH]; intros s1 Hp.
  - by destruct (s1 +:+ s2).
  - destruct s1 as [|b s1]; [discriminate|]. simpl in *.
    destruct (ascii_dec a b); [by apply IH | done].
Qed.

Lemma contains_append_l (w s1 s2 : string) :
  contains w s1 = true → contains w (s1 +:+ s2) = true.
Proof.
  induction s1 as [|c s1 IH].
  - destruct w; [|discriminate]. intros _. by destruct s2.
  - intros Hc. cbn [contains] in Hc. apply orb_true_iff in Hc as [Hp | Hc].
    + apply (prefix_append _ _ s2) in Hp.
      change (String c s1 +:+ s2) with (String c (s1 +:+ s2)) in *.
      cbn [contains]. by rewrite Hp.
    + change (String c s1 +:+ s2) with (String c (s1 +:+ s2)).
      cbn [contains]. rewrite (IH Hc). apply orb_true_r.
Qed.

Lemma contains_append_r (w s1 s2 : string) :
  contains w s2 = true → contains w (s1 +:+ s2) = true.
Proof.
  intros Hc. induction s1 as [|c s1 IH]; [done|].
  change (String c s1 +:+ s2) with (String c (s1 +:+ s2)).
  cbn [contains]. rewrite IH. apply orb_true_r.
Qed.

Lemma any_in_elem (words : list string) (w text : string) :
  w ∈ words → contains w text = true → any_in words text = true.
Proof.
  intros Hw Hc. apply existsb_exists. exists w. split; [by apply list_elem_of_In | done].
Qed.

Section FetcherProps.
Context {F : Type} `{PyFloat F}.

Lemma obj_get_app (k : string) (l1 l2 : list (string * json F)) :
  obj_get k (l1 ++ l2)
    = match obj_get k l2 with
      | Some w => Some w
      | None => obj_get k l1
      end.
Proof.
  induction l1 as [|[k' v] l1 IH]; simpl.
  - by destruct (obj_get k l2).
  - rewrite IH. by destruct (obj_get k l2).
Qed.

Lemma fallback_count : length fallback_highways = 63%nat.
Proof. vm_compute. reflexivity. Qed.

(** X17: [get_all_autobahns] never returns an empty list: when the
    request for the roads brings no road, whether it raises, is refused or
    answers with none, the fallback of 63 autobahns is taken, and
    otherwise the roads of the answer; the federal roads asked for are put
    behind either. *)
Theorem get_all_autobahns_never_empty (include_bundesstrassen : bool) (answer : response F) :
  (1 ≤ length (get_all_autobahns include_bundesstrassen answer))%nat ∧
  get_all_autobahns true answer
    = get_all_autobahns false answer ++ ((λ s, JScalar (SStr s)) <$> bundesstrassen) ∧
  ((roads_of answer = [] ∧
    get_all_autobahns false answer = (λ s, JScalar (SStr s)) <$> fallback_highways) ∨
   (roads_of answer ≠ [] ∧ get_all_autobahns false answer = roads_of answer)) ∧
  length fallback_highways = 63%nat.
Proof.
  assert (Hbase : (1 ≤ length (get_all_autobahns false answer))%nat).
  { unfold get_all_autobahns. destruct (roads_of answer) as [|road roads].
    - rewrite length_fmap, fallback_count. apply Nat.lt_0_succ.
    - apply Nat.lt_0_succ. }
  split; [|split; [reflexivity|split; [|exact fallback_count]]].
  - destruct include_bundesstrassen; [|done].
    change (get_all_autobahns true answer)
      with (get_all_autobahns false answer ++ ((λ s, JScalar (SStr s)) <$> bundesstrassen)).
    rewrite length_app. apply Nat.le_trans with (1 := Hbase), Nat.le_add_r.
  - unfold get_all_autobahns. destruct (roads_of answer); [by left | by right].
Qed.

(** *** The webcams of [bast.py] *)

Lemma webcam_record_fields (autobahn : string) (webcam details : json F)
    (record : list (string * json F)) :
  webcam_record autobahn webcam details = Some record →
  obj_get "autobahn" record = Some (JScalar (SStr autobahn)) ∧
  get "identifier" webcam = obj_get "webcam_id" record.
Proof.
  unfold webcam_record.
  repeat match goal with
  | |- match ?x with _ => _ end = _ → _ => destruct x; try discriminate
  end.
  intros [= <-]. split; reflexivity.
Qed.

Lemma webcam_loop_inv (autobahn : string) (detail : nat → json F → response F)
    (items : list (json F)) (i : nat) (webcams : list (list (string * json F)))
    (ok : list (string * json F) → Prop) :
  (∀ webcam details record, webcam ∈ items →
     webcam_record autobahn webcam details = Some record → ok record) →
  Forall ok webcams →
  Forall ok (webcam_loop autobahn detail i items webcams) ∧
  (length (webcam_loop autobahn detail i items webcams) ≤ length webcams + length items)%nat.
Proof.
  revert i webcams. induction items as [|webcam rest IH]; intros i webcams Hrec Hacc; simpl.
  - split; [done | lia].
  - assert (Hrest : ∀ w d r, w ∈ rest → webcam_record autobahn w d = Some r → ok r).
    { intros w d r Hw. apply Hrec. by right. }
    destruct (subscript "identifier" webcam); [|split; [done | lia]].
    destruct (detail i j) as [|status body]; [split; [done | lia]|].
    destruct (status =? 200).
    + destruct body as [details|]; [|split; [done | lia]].
      destruct (webcam_record autobahn webcam details) as [r|] eqn:Er; [|split; [done | lia]].
      destruct (IH (S i) (webcams ++ [r]) Hrest) as [Hok Hlen].
      { apply Forall_app. split; [done|]. constructor; [|done].
        eapply Hrec; [by left | exact Er]. }
      split; [done|]. rewrite length_app in Hlen. simpl in Hlen. lia.
    + destruct (IH (S i) webcams Hrest Hacc) as [Hok Hlen]. split; [done | lia].
Qed.

(** X18: [get_webcam_locations] returns at most one record for each
    listed webcam, and every record carries the autobahn that was asked
    for and the identifier of a webcam of the list. *)
Theorem webcam_records_come_from_list (autobahn : string) (status : Z)
    (body : option (json F)) (detail : nat → json F → response F) :
  (length (get_webcam_locations autobahn (Response status body) detail)
     ≤ length (listed "webcam" body))%nat ∧
  Forall (λ record,
            obj_get "autobahn" record = Some (JScalar (SStr autobahn)) ∧
            ∃ webcam, webcam ∈ listed "webcam" body ∧
                      get "identifier" webcam = obj_get "webcam_id" record)
    (get_webcam_locations autobahn (Response status body) detail).
Proof.
  unfold get_webcam_locations. destruct (status =? 200); [|split; [simpl; lia | constructor]].
  destruct (webcam_loop_inv autobahn detail (listed "webcam" body) O []
    (λ record, obj_get "autobahn" record = Some (JScalar (SStr autobahn)) ∧
               ∃ webcam, webcam ∈ listed "webcam" body ∧
                         get "identifier" webcam = obj_get "webcam_id" record))
    as [Hok Hlen]; [|constructor|by split].
  intros webcam details record Hin Hrec.
  apply webcam_record_fields in Hrec as [Ha Hid]. eauto.
Qed.

(** *** The warnings of [bast_traffic.py] *)

Lemma severity_levels (details : json F) (severity : Z) :
  _determine_severity details = Some severity → severity_level severity.
Proof.
  unfold _determine_severity, severity_level.
  destruct details as [| |members]; try discriminate.
  destruct (text_of "title" members); try discriminate.
  destruct (text_of "subtitle" members); try discriminate.
  intros [= <-].
  repeat match goal with |- context [if ?b then _ else _] => destruct b end; lia.
Qed.

Lemma process_warning_fields (details : json F) (highway : string)
    (warning_data : list (string * json F)) :
  _process_warning_details details highway = Some warning_data →
  obj_get "highway" warning_data = Some (JScalar (SStr highway)) ∧
  ∃ severity, _determine_severity details = Some severity ∧
              obj_get "severity" warning_data = Some (JScalar (SInt severity)).
Proof.
  unfold _process_warning_details.
  destruct (_determine_severity details) as [severity|] eqn:Esev.
  - repeat match goal with
    | |- match ?x with _ => _ end = _ → _ => destruct x; try discriminate
    end.
    intros [= <-]. split; [reflexivity|]. exists severity. split; reflexivity.
  - repeat match goal with
    | |- match ?x with _ => _ end = _ → _ => destruct x; try discriminate
    end.
Qed.

Lemma enrich_keeps (include_history : bool) (ident : json F)
    (warning_data enriched : list (string * json F)) :
  enrich include_history ident warning_data = Some enriched →
  obj_get "highway" enriched = obj_get "highway" warning_data ∧
  obj_get "severity" enriched = obj_get "severity" warning_data.
Proof.
  unfold enrich. destruct include_history.
  - destruct ident; try discriminate. intros [= <-]. by rewrite !obj_get_app.
  - intros [= <-]. by rewrite !obj_get_app.
Qed.

Lemma warning_item_fields (highway : string) (include_history : bool)
    (answer : json F → response F) (members : list (string * json F))
    (warning_data : list (string * json F)) :
  warning_item highway include_history answer members = Some (Some warning_data) →
  obj_get "highway" warning_data = Some (JScalar (SStr highway)) ∧
  ∃ severity, severity_level severity ∧
              obj_get "severity" warning_data = Some (JScalar (SInt severity)).
Proof.
  unfold warning_item.
  destruct (obj_get "identifier" members) as [ident|]; [|discriminate].
  destruct (answer ident) as [|status body]; [discriminate|].
  destruct (status =? 200); [|discriminate].
  destruct body as [details|]; [|discriminate].
  destruct (_process_warning_details details highway) as [wd|] eqn:Ewd; [|discriminate].
  destruct (enrich include_history ident wd) as [wd'|] eqn:Een; [|discriminate].
  intros [= <-].
  apply process_warning_fields in Ewd as (Hh & severity & Hsev & Hs).
  apply enrich_keeps in Een as [-> ->]. split; [done|].
  exists severity. split; [by eapply severity_levels | done].
Qed.

Lemma warning_loop_inv (highway : string) (include_history : bool)
    (detail : nat → json F → response F) (items : list (json F)) (i : nat)
    (warnings : list (list (string * json F))) (ok : list (string * json F) → Prop) :
  (∀ answer members warning_data,
     warning_item highway include_history answer members = Some (Some warning_data) →
     ok warning_data) →
  Forall ok warnings →
  Forall ok (warning_loop highway include_history detail i items warnings) ∧
  (length (warning_loop highway include_history detail i items warnings)
     ≤ length warnings + length items)%nat.
Proof.
  intros Hitem. revert i warnings.
  induction items as [|item rest IH]; intros i warnings Hacc; simpl.
  - split; [done | lia].
  - destruct item as [| |members]; try (split; [done | lia]).
    destruct (warning_item highway include_history (detail i) members)
      as [[warning_data|]|] eqn:Eitem.
    + destruct (IH (S i) (warnings ++ [warning_data])) as [Hok Hlen].
      { apply Forall_app. split; [done|]. constructor; [|done]. by eapply Hitem. }
      split; [done|]. rewrite length_app in Hlen. simpl in Hlen. lia.
    + destruct (IH (S i) warnings Hacc) as [Hok Hlen]. split; [done | lia].
    + destruct (IH (S i) warnings Hacc) as [Hok Hlen]. split; [done | lia].
Qed.

(** X19: every warning that [get_traffic_warnings_detailed] returns
    carries the highway that was asked for and a severity of 1, 2, 3 or 5,
    and there is at most one warning for each item the list names. *)
Theorem warnings_carry_highway_and_severity (highway : string) (include_history : bool)
    (listing : response F) (detail : nat → json F → response F) :
  Forall (λ warning_data,
            obj_get "highway" warning_data = Some (JScalar (SStr highway)) ∧
            ∃ severity, severity_level severity ∧
                        obj_get "severity" warning_data = Some (JScalar (SInt severity)))
    (get_traffic_warnings_detailed highway include_history listing detail) ∧
  ∀ status data items,
    listing = Response status (Some (JObj data)) →
    obj_get "warning" data = Some (JArr items) →
    (length (get_traffic_warnings_detailed highway include_history listing detail)
       ≤ length items)%nat.
Proof.
  split.
  - unfold get_traffic_warnings_detailed.
    destruct listing as [|status body]; [constructor|].
    destruct (status =? 200); [|constructor].
    destruct body as [[| |data]|]; try constructor.
    destruct (default (JArr []) (obj_get "warning" data)) as [|items|]; try constructor.
    apply (warning_loop_inv highway include_history detail items O []); [|constructor].
    intros answer members warning_data. apply warning_item_fields.
  - intros status data items -> Hitems. unfold get_traffic_warnings_detailed.
    destruct (status =? 200); [|simpl; lia]. rewrite Hitems. cbn [from_option id].
    destruct (warning_loop_inv highway include_history detail items O [] (λ _, True))
      as [_ Hlen]; [done | constructor | done].
Qed.

(** X20: a word of danger ([gefahr], [danger], [unfall], [accident],
    [vollsperrung]) in the title or in the subtitle of a warning, in any
    letter case, gives the severity 5, whatever else the warning says of
    congestion or roadworks. *)
Theorem danger_word_gives_severity_5 (members : list (string * json F))
    (ti su word : string) :
  text_of "title" members = Some ti → text_of "subtitle" members = Some su →
  word ∈ ["gefahr"; "danger"; "unfall"; "accident"; "vollsperrung"] →
  contains word (py_lower ti) = true ∨ contains word (py_lower su) = true →
  _determine_severity (JObj members) = Some 5.
Proof.
  intros Ht Hs Hw Hc. unfold _determine_severity. rewrite Ht, Hs. cbv zeta.
  rewrite !py_lower_append.
  rewrite (any_in_elem _ word _ Hw); [done|].
  destruct Hc as [Hc | Hc].
  - by apply contains_append_l.
  - by do 2 apply contains_append_r.
Qed.
Lemma common_autobahns_first :
  common_autobahns = take 10 fallback_highways.
Proof. vm_compute. reflexivity. Qed.

(** X21: the list that [get_autobahn_list] of [bast.py] returns is
    empty, or the list that [get_all_autobahns] of [bast_traffic.py]
    returns on the same answer, or the first ten entries of that list. *)
Theorem autobahn_lists_agree (answer : response F) (roads : list (json F)) :
  get_autobahn_list answer = JArr roads →
  roads = [] ∨
  roads = get_all_autobahns false answer ∨
  roads = take 10 (get_all_autobahns false answer).
Proof.
  assert (Hfallback : roads_of answer = [] →
            (λ s, JScalar (SStr s)) <$> common_autobahns
              = take 10 (get_all_autobahns false answer)).
  { intros Hnone. unfold get_all_autobahns. rewrite Hnone.
    by rewrite common_autobahns_first, fmap_take. }
  unfold get_autobahn_list. destruct answer as [|status body] eqn:Eanswer.
  - intros [= <-]. right. right. by apply Hfallback.
  - destruct (status =? 200) eqn:Estatus.
    + destruct body as [[| |data]|];
        try (intros [= <-]; right; right; apply Hfallback; simpl; by rewrite Estatus).
      destruct (default (JArr []) (obj_get "roads" data)) as [[]|listed|] eqn:Eroads;
        try discriminate;
        try (intros [= <-]; right; right; apply Hfallback; simpl;
             by rewrite Estatus, Eroads).
      intros [= ->]. destruct roads as [|road roads]; [by left|]. right. left.
      unfold get_all_autobahns, roads_of. rewrite Estatus, Eroads. reflexivity.
    + intros [= <-]. right. right. apply Hfallback. simpl. by rewrite Estatus.
Qed.
End FetcherProps.

(** *** The properties at concrete inputs *)

Lemma gather_bounded_witness :
  gather (F:=Q) 1 [Some [post_a; post_b]] [] `prefix_of` concat (omap id [Some [post_a; post_b]]) ∧
  Z.of_nat (length (gather (F:=Q) 1 [Some [post_a; post_b]] [])) < 1 + Z.of_nat 2.
Proof.
  apply (gather_bounded (F:=Q) 1 2 [Some [post_a; post_b]]); [lia|].
  constructor; [|constructor]. intros fetched [= <-]. simpl. lia.
Defined.

Lemma collect_batch_again_is_empty_witness :
  ∃ t'',
    RedditGermanyMassCollector.collect_batch [Some [post_a; post_b]] 5
      (update "reddit" 1 {[ "reddit_b" ]} seen_a_tracker) = Some ([], t'') ∧
    get_total t'' = get_total (update "reddit" 1 {[ "reddit_b" ]} seen_a_tracker) ∧
    seen_ids t'' = seen_ids (update "reddit" 1 {[ "reddit_b" ]} seen_a_tracker).
Proof.
  apply (collect_batch_again_is_empty [Some [post_a; post_b]] 5 seen_a_tracker
           (update "reddit" 1 {[ "reddit_b" ]} seen_a_tracker) [post_b]).
  vm_compute. reflexivity.
Defined.

Lemma collect_batch_emits_fetched_witness :
  [post_b] `sublist_of` concat (omap id [Some [post_a; post_b]]) ∧
  Z.of_nat (length [post_b]) ≤ 5.
Proof.
  apply (collect_batch_emits_fetched [Some [post_a; post_b]] 5 seen_a_tracker
           (update "reddit" 1 {[ "reddit_b" ]} seen_a_tracker) [post_b]); [lia|].
  vm_compute. reflexivity.
Defined.

Lemma iteration_grows_witness :
  ∃ c', iteration quiet_env nearly_done = Some c' ∧
        tracker_grows (tracker nearly_done) (tracker c') ∧
        all_posts nearly_done `prefix_of` all_posts c' ∧
        batch_num c' = S (batch_num nearly_done).
Proof.
  destruct (iteration quiet_env nearly_done) as [c'|] eqn:Hturn.
  - exists c'. split; [reflexivity|]. exact (iteration_grows quiet_env nearly_done c' Hturn).
  - vm_compute in Hturn. discriminate.
Defined.

Lemma generators_fill_quota_witness :
  ∃ c', iteration quiet_env nearly_done = Some c' ∧
        default 0 (collected (tracker c') !! "events") = Z.max 3998 (Z.min 4000 (3998 + 1000)) ∧
        default 0 (collected (tracker c') !! "news") = Z.max 1999 (Z.min 2000 (1999 + 1000)).
Proof.
  destruct (iteration quiet_env nearly_done) as [c'|] eqn:Hturn.
  - exists c'. split; [reflexivity|].
    exact (generators_fill_quota quiet_env nearly_done c' Hturn).
  - vm_compute in Hturn. discriminate.
Defined.



Lemma save_batch_titles_one_line_witness :
  ∃ row, row ∈ (save_batch "2025-01-01T00:00:00" [post_two_lines]).1 ∧
         (String.length (title row) ≤ 200)%nat ∧
         ascii_of_nat 10 ∉ chars_of (title row).
Proof.
  assert (Hrow : ∃ row, row ∈ (save_batch "2025-01-01T00:00:00" [post_two_lines]).1)
    by (eexists; vm_compute; left).
  destruct Hrow as [row Hin]. exists row. split; [exact Hin|].
  exact (save_batch_titles_one_line "2025-01-01T00:00:00" [post_two_lines] row Hin).
Defined.

Lemma iteration_keeps_rows_in_step_witness :
  ∃ c', iteration quiet_env nearly_done = Some c' ∧
        Forall2 (λ post row, ∃ now, csv_row now post = Some row)
          (all_posts c') (concat (csv_files c')).
Proof.
  destruct (iteration quiet_env nearly_done) as [c'|] eqn:Hturn.
  - exists c'. split; [reflexivity|].
    exact (iteration_keeps_rows_in_step quiet_env nearly_done c'
             ltac:(constructor) Hturn).
  - vm_compute in Hturn. discriminate.
Defined.

Lemma truncated_checkpoint_starts_fresh_witness :
  (1 ≤ 5 ≤ length (dump (checkpoint_data (F:=Q) "2025-01-01T00:05:00" seen_a_tracker)))%nat ∧
  load_checkpoint
    (fs_run (take 5 (save_checkpoint_ops "2025-01-01T00:05:00" seen_a_tracker)) saved_once)
    fresh_tracker = fresh_tracker.
Proof.
  assert (Hn : (1 ≤ 5 ≤ length (dump (checkpoint_data (F:=Q) "2025-01-01T00:05:00"
                                        seen_a_tracker)))%nat).
  { split; [lia|]. apply Nat.leb_le. vm_compute. reflexivity. }
  split; [exact Hn|].
  exact (truncated_checkpoint_starts_fresh "2025-01-01T00:05:00" seen_a_tracker fresh_tracker
           saved_once 5 Hn).
Defined.

Lemma danger_word_gives_severity_5_witness :
  _determine_severity (F:=Q) (JObj sperrung_members) = Some 5.
Proof.
  apply (danger_word_gives_severity_5 sperrung_members "A7 | Hamburg"
           "VOLLSPERRUNG nach Stau" "vollsperrung").
  - reflexivity.
  - reflexivity.
  - apply (bool_decide_unpack _). vm_compute. exact I.
  - right. vm_compute. reflexivity.
Defined.

Lemma autobahn_lists_agree_witness :
  [JScalar (SStr "A1"); JScalar (SStr "A7")] = ([] : list (json Q)) ∨
  [JScalar (SStr "A1"); JScalar (SStr "A7")] = get_all_autobahns false roads_answer ∨
  [JScalar (SStr "A1"); JScalar (SStr "A7")] = take 10 (get_all_autobahns false roads_answer).
Proof.
  apply (autobahn_lists_agree roads_answer). reflexivity.
Defined.
